(** * Overpass nearby-places lookup: model and verification

    A shallow embedding of [nearby_places_overpass.py]: the transport
    client [_overpass_post] with its retry loop, the address formatter,
    the coordinate extraction, the haversine distance, the two category
    searches, the unified entry point and the legacy adapters.

    Conventions.
    - Python [float] is IEEE binary64, modelled by [spec_float] with
      precision 53 and maximal exponent 1024.
    - Python [int] is [Z]; [str] is [string]; a [dict] is a [gmap].
    - A Python function that can raise returns [exn + A]; a function
      that performs HTTP requests or sleeps runs in the monad [io], whose
      state records every request and every sleep in order.
    - The back-off delay is an exact rational: [1.25 * 2^k] is exactly
      representable in binary64 for every [k] up to 1023, and the loop
      never gets beyond [k = 33], the first delay [time.sleep] refuses. *)

From Stdlib Require Import ZArith QArith Qpower List String Ascii Bool Lia.
From Stdlib Require Import Sorting.Sorted Sorting.Permutation.
From Stdlib Require Import Floats.SpecFloat.
From stdpp Require Import gmap strings pretty.

Local Open Scope string_scope.
Local Open Scope Z_scope.
Local Open Scope list_scope.

(** ** Exceptions *)

Module Py.

Inductive exn_class :=
| RuntimeError | ValueError | OverflowError | TypeError | KeyError
| ZeroDivisionError
| ConnectionError | Timeout | HTTPError | JSONDecodeError
| OtherException.

Record exn := Exn { exn_cls : exn_class; exn_msg : string }.

(** [str(e)] for an exception raised with one message argument. *)
Definition str_exn (e : exn) : string := exn_msg e.

(** [f"{x}"] for [x : Optional[Exception]]: [None] prints as the word None. *)
Definition str_opt_exn (o : option exn) : string :=
match o with
| Some e => str_exn e
| None => "None"
end.

Definition result (A : Type) : Type := (exn + A)%type.

Definition ok {A} (a : A) : result A := inr a.
Definition err {A} (e : exn) : result A := inl e.

Definition rbind {A B} (r : result A) (k : A -> result B) : result B :=
match r with
| inl e => inl e
| inr a => k a
end.

End Py.
Export Py.

(** ** The outside world: HTTP endpoint and clock *)

Record request := Request {
  req_url : string;
  req_data : string;          (* form field [data] *)
  req_user_agent : string;    (* header [User-Agent] *)
  req_accept : string;        (* header [Accept] *)
  req_timeout : Z
}.

Inductive event :=
  | EvPost (r : request)
  | EvSleep (d : Q).

Record world := World {
  w_posts : nat;              (* number of POSTs issued so far *)
  w_log : list event          (* everything done so far, oldest first *)
}.

Definition w0 : world := World 0 [].

Definition io (A : Type) : Type := world -> result A * world.

Definition ret {A} (a : A) : io A := fun w => (inr a, w).
Definition raise {A} (e : exn) : io A := fun w => (inl e, w).
Definition lift {A} (r : result A) : io A := fun w => (r, w).

Definition bind {A B} (m : io A) (k : A -> io B) : io B :=
  fun w =>
    match m w with
    | (inl e, w') => (inl e, w')
    | (inr a, w') => k a w'
    end.

(** [try: body except Exception as e: handler(e)] *)
Definition try_except {A} (body : io A) (handler : exn -> io A) : io A :=
  fun w =>
    match body w with
    | (inl e, w') => handler e w'
    | (inr a, w') => (inr a, w')
    end.

Declare Scope io_scope.
Delimit Scope io_scope with io.
Notation "x <- m ;; k" := (bind m (fun x => k))
  (at level 100, m at next level, right associativity) : io_scope.
Notation "m ;;; k" := (bind m (fun _ => k))
  (at level 100, right associativity) : io_scope.

(** [time.sleep(d)] of CPython 3.11. The delay is first converted to a
    whole number of nanoseconds, rounded away from zero, held in a
    signed 64-bit integer ([_PyTime_t]): a delay that does not fit
    raises [OverflowError], a negative one raises [ValueError], and in
    both cases nothing is slept. CPython forms the product with [1e9]
    and checks its range in binary64; that agrees with the exact
    computation below for the delays of the retry loop, whose product
    is exact, and for every delay further than one rounding step from
    the bounds. An accepted delay is slept in full: the deadline, the
    monotonic clock plus the delay, is taken to fit as well, which it
    does for every delay up to [1.25 * 2^32] seconds on a machine that
    has been up for less than a century (close to [2^63] nanoseconds
    the system call fails with [OSError] instead). What follows relies
    on this definition only for the delays from 0 to [1.25 * 2^32]
    seconds, for [1.25 * 2^33] seconds and, as an illustration, for
    -1 second. *)
Definition PyTime_MIN : Z := - 2 ^ 63.
Definition PyTime_MAX : Z := 2 ^ 63 - 1.

Definition nanoseconds (d : Q) : Z :=
  let n := Qnum d * 10 ^ 9 in
  let q := Z.pos (Qden d) in
  if 0 <=? n then - ((- n) / q) else n / q.

(** The exception [time.sleep(d)] raises instead of sleeping, if any. *)
Definition sleep_error (d : Q) : option exn :=
  let t := nanoseconds d in
  if (t <? PyTime_MIN) || (PyTime_MAX <? t) then
    Some (Exn OverflowError "timestamp too large to convert to C _PyTime_t")
  else if t <? 0 then
    Some (Exn ValueError "sleep length must be non-negative")
  else None.

Definition time_sleep (d : Q) : io unit :=
  fun w =>
    match sleep_error d with
    | Some e => (inl e, w)
    | None => (inr tt, World (w_posts w) (w_log w ++ [EvSleep d]))
    end.

(** ** Response data

    The parsed response body, typed as the module's annotations and the
    Overpass output format have it: an object with an optional
    [elements] array; each element optionally carries [lat]/[lon], a
    [center] object and a [tags] object of strings. An absent key is
    [None]. *)

Definition float : Type := spec_float.

Record center := Center {
  c_lat : option float;
  c_lon : option float
}.

Record element := Element {
  el_lat : option float;
  el_lon : option float;
  el_center : option center;       (* [None]: absent or not an object *)
  el_tags : option (gmap string string)
}.

Record overpass_data := Data {
  elements : option (list element)
}.

(** What [requests.post] hands back: the status line and what
    [resp.json()] evaluates to (it raises on a body that is not JSON). *)
Record response := Response {
  status_code : Z;
  reason : string;
  resp_url : string;
  resp_json : result overpass_data
}.

Inductive post_outcome :=
  | PostRaises (e : exn)           (* connection error, timeout, ... *)
  | PostReturns (r : response).

(** The endpoint: what the [k]-th POST of a run (counting from 0) does. *)
Definition network : Type := nat -> request -> post_outcome.

(** [Response.raise_for_status()] of the requests library: an
    [HTTPError] for every status from 400 to 599, nothing otherwise. *)
Definition raise_for_status (r : response) : result unit :=
  let s := status_code r in
  if (400 <=? s) && (s <? 500) then
    err (Exn HTTPError
           (pretty s +:+ " Client Error: " +:+ reason r +:+ " for url: " +:+ resp_url r))
  else if (500 <=? s) && (s <? 600) then
    err (Exn HTTPError
           (pretty s +:+ " Server Error: " +:+ reason r +:+ " for url: " +:+ resp_url r))
  else ok tt.

(** ** Transport client *)

Definition DEFAULT_OVERPASS_URL : string := "https://overpass-api.de/api/interpreter".
Definition DEFAULT_USER_AGENT : string :=
  "nearby-places-overpass/1.0 (contact: you@example.com)".

(** [resp.status_code in (429, 502, 503, 504)] *)
Definition transient_status (s : Z) : bool :=
  (s =? 429) || (s =? 502) || (s =? 503) || (s =? 504).

(** The two locals the loop of [_overpass_post] mutates. *)
Record retry_state := RetryState {
  backoff : Q;
  last_err : option exn
}.

Definition initial_retry_state : retry_state := RetryState (5 # 4) None.

Section Transport.

Variable net : network.

(** [requests.post(url, data=..., headers=..., timeout=...)] *)
Definition requests_post (rq : request) : io response :=
  fun w =>
    let w' := World (S (w_posts w)) (w_log w ++ [EvPost rq]) in
    match net (w_posts w) rq with
    | PostRaises e => (inl e, w')
    | PostReturns r => (inr r, w')
    end.

(** One pass through the body of the [for] loop. [inl d] is
    [return resp.json()]; [inr st] is falling through (or [continue])
    to the next iteration with the locals [st]. *)
Definition attempt (rq : request) (st : retry_state)
  : io (overpass_data + retry_state) :=
  try_except
    (resp <- requests_post rq ;;
     if transient_status (status_code resp) then
       (time_sleep (backoff st) ;;;
        ret (inr (RetryState (backoff st * 2) (last_err st))))
     else
       (lift (raise_for_status resp) ;;;
        d <- lift (resp_json resp) ;;
        ret (inl d)))%io
    (fun e =>
       (time_sleep (backoff st) ;;;
        ret (inr (RetryState (backoff st * 2) (Some e))))%io).

(** [for _ in range(n): ...] followed by the final [raise]. *)
Fixpoint retry_loop (rq : request) (n : nat) (st : retry_state)
  : io overpass_data :=
  match n with
  | O =>
      raise (Exn RuntimeError
               ("Overpass request failed after retries: "
                  +:+ str_opt_exn (last_err st)))
  | S n' =>
      (r <- attempt rq st ;;
       match r with
       | inl d => ret d
       | inr st' => retry_loop rq n' st'
       end)%io
  end.

Definition _overpass_post (query overpass_url user_agent : string)
    (timeout_s max_retries : Z) : io overpass_data :=
  let headers_user_agent := user_agent in
  let headers_accept := "application/json" in
  retry_loop
    (Request overpass_url query headers_user_agent headers_accept timeout_s)
    (Z.to_nat max_retries)
    initial_retry_state.

End Transport.

(** ** Python string operations

    One [ascii] stands for one code point, so the model covers text in
    the range U+0000..U+00FF. *)

Module PyStr.

(** [c.isspace()] on that range: TAB..CR, FS..US, SPACE, NEL, NBSP. *)
Definition isspace (c : ascii) : bool :=
  let n := N_of_ascii c in
  (((9 <=? n) && (n <=? 13)) || ((28 <=? n) && (n <=? 32))
   || (n =? 133) || (n =? 160))%N.

(** [c.lower()] on that range: A..Z and the capitals U+00C0..U+00DE
    except the multiplication sign U+00D7. *)
Definition lower_char (c : ascii) : ascii :=
  let n := N_of_ascii c in
  if (((65 <=? n) && (n <=? 90))
      || ((192 <=? n) && (n <=? 222) && negb (n =? 215)))%N
  then ascii_of_N (n + 32) else c.

Fixpoint lower (s : string) : string :=
  match s with
  | EmptyString => EmptyString
  | String c s' => String (lower_char c) (lower s')
  end.

Fixpoint lstrip (s : string) : string :=
  match s with
  | EmptyString => EmptyString
  | String c s' => if isspace c then lstrip s' else s
  end.

Fixpoint rstrip (s : string) : string :=
  match s with
  | EmptyString => EmptyString
  | String c s' =>
      match rstrip s' with
      | EmptyString => if isspace c then EmptyString else String c EmptyString
      | r => String c r
      end
  end.

Definition strip (s : string) : string := rstrip (lstrip s).

(** [sep.join(parts)] *)
Fixpoint join (sep : string) (parts : list string) : string :=
  match parts with
  | [] => EmptyString
  | [p] => p
  | p :: ps => p +:+ sep +:+ join sep ps
  end.

(** Truth value of a string: non-empty. *)
Definition truthy (s : string) : bool :=
  match s with
  | EmptyString => false
  | String _ _ => true
  end.

(** [s or None] *)
Definition or_none (s : string) : option string :=
  if truthy s then Some s else None.

(** [d.get(k)] is truthy: present and non-empty. *)
Definition get_truthy (d : gmap string string) (k : string) : option string :=
  match d !! k with
  | Some v => or_none v
  | None => None
  end.

End PyStr.

(** ** Result normalizer: address and coordinates *)

Definition address_keys : list string :=
  ["addr:housenumber"; "addr:street"; "addr:district"; "addr:city"; "addr:postcode"].

(** The [for k in (...)] loop filling [parts]. *)
Fixpoint collect_parts (tags : gmap string string) (ks : list string) : list string :=
  match ks with
  | [] => []
  | k :: ks' =>
      match PyStr.get_truthy tags k with
      | Some v => v :: collect_parts tags ks'
      | None => collect_parts tags ks'
      end
  end.

Definition _build_address (tags : gmap string string) : option string :=
  if bool_decide (tags = ∅) then None
  else
    match PyStr.get_truthy tags "addr:full" with
    | Some full => PyStr.or_none (PyStr.strip full)
    | None =>
        let parts := collect_parts tags address_keys in
        let parts :=
          match parts, PyStr.get_truthy tags "contact:address" with
          | [], Some c => parts ++ [c]
          | _, _ => parts
          end in
        let addr := PyStr.strip (PyStr.join " " parts) in
        PyStr.or_none addr
    end.

Definition _extract_center (el : element) : option (float * float) :=
  match el_lat el, el_lon el with
  | Some lat, Some lon => Some (lat, lon)
  | _, _ =>
      match el_center el with
      | Some (Center (Some clat) (Some clon)) => Some (clat, clon)
      | _ => None
      end
  end.

(** ** Floating point: IEEE binary64 and the [math] module *)

Module F64.

Definition prec : Z := 53.
Definition emax : Z := 1024.

Definition add : float -> float -> float := SFadd prec emax.
Definition sub : float -> float -> float := SFsub prec emax.
Definition mul : float -> float -> float := SFmul prec emax.
Definition div : float -> float -> float := SFdiv prec emax.
Definition sqrt : float -> float := SFsqrt prec emax.
Definition leb : float -> float -> bool := SFleb.
Definition eqb : float -> float -> bool := SFeqb.

(** Conversion of a Python [int] literal to binary64. *)
Definition of_Z (z : Z) : float := binary_normalize prec emax z 0 false.

Definition zero : float := S754_zero false.
Definition one : float := of_Z 1.
Definition two : float := of_Z 2.

(** [Py_MATH_PI], the binary64 nearest to pi. *)
Definition pi : float := S754_finite false 7074237752028440 (-51).

Definition is_nan (x : float) : bool :=
  match x with S754_nan => true | _ => false end.
Definition is_inf (x : float) : bool :=
  match x with S754_infinity _ => true | _ => false end.
Definition is_finite (x : float) : bool :=
  match x with S754_zero _ | S754_finite _ _ _ => true | _ => false end.

Definition valid (x : float) : bool := valid_binary prec emax x.

End F64.

(** The C library underneath: the libm functions CPython calls, and the
    shortest-repr printing of a float used by f-strings. *)
Record platform := Platform {
  c_sin : float -> float;
  c_cos : float -> float;
  c_asin : float -> float;
  c_pow : float -> float -> float;
  float_repr : float -> string
}.

Module PyMath.
Section WithPlatform.

Variable P : platform.

(** CPython's wrapper [math_1] around a libm function: a NaN result
    from a non-NaN argument, or an infinite result from a finite
    argument, is reported as an exception. *)
Definition math_1 (func : float -> float) (can_overflow : bool) (x : float)
  : result float :=
  let r := func x in
  if F64.is_nan r && negb (F64.is_nan x) then
    err (Exn ValueError "math domain error")
  else if F64.is_inf r && F64.is_finite x then
    if can_overflow then err (Exn OverflowError "math range error")
    else err (Exn ValueError "math domain error")
  else ok r.

Definition sin : float -> result float := math_1 (c_sin P) false.
Definition cos : float -> result float := math_1 (c_cos P) false.
Definition asin : float -> result float := math_1 (c_asin P) false.
Definition sqrt : float -> result float := math_1 F64.sqrt false.

(** [math.radians(x)] is [x * (Py_MATH_PI / 180.0)]. *)
Definition deg_to_rad : float :=
  Eval vm_compute in F64.div F64.pi (F64.of_Z 180).
Definition radians (x : float) : float := F64.mul x deg_to_rad.

(** [x ** 2] on a float, following CPython's [float_pow] with the
    exponent fixed to 2.0: NaN and zeros and infinities and one are
    answered directly, the rest goes to libm's [pow] on [|x|], and an
    overflow there raises. *)
Definition pow2 (x : float) : result float :=
  match x with
  | S754_nan => ok x
  | S754_infinity _ => ok (S754_infinity false)
  | S754_zero _ => ok F64.zero
  | S754_finite _ m e =>
      let ax := S754_finite false m e in
      if F64.eqb ax F64.one then ok F64.one
      else
        let r := c_pow P ax F64.two in
        if F64.is_inf r then
          err (Exn OverflowError "(34, 'Numerical result out of range')")
        else ok r
  end.

(** [round(x)] for a float [x]: nearest integer, ties to even; NaN and
    infinities cannot be converted. *)
Definition round_half_even (m : Z) (e : Z) : Z :=
  if 0 <=? e then m * 2 ^ e
  else
    let d := 2 ^ (- e) in
    let q := m / d in
    let r := m mod d in
    match 2 * r ?= d with
    | Lt => q
    | Gt => q + 1
    | Eq => if Z.even q then q else q + 1
    end.

Definition round (x : float) : result Z :=
  match x with
  | S754_nan => err (Exn ValueError "cannot convert float NaN to integer")
  | S754_infinity _ =>
      err (Exn OverflowError "cannot convert float infinity to integer")
  | S754_zero _ => ok 0
  | S754_finite s m e => ok (cond_Zopp s (round_half_even (Zpos m) e))
  end.

(** [int(x)] for a float [x]: truncation toward zero. *)
Definition int_of_float (x : float) : result Z :=
  match x with
  | S754_nan => err (Exn ValueError "cannot convert float NaN to integer")
  | S754_infinity _ =>
      err (Exn OverflowError "cannot convert float infinity to integer")
  | S754_zero _ => ok 0
  | S754_finite s m e =>
      ok (cond_Zopp s (if 0 <=? e then Zpos m * 2 ^ e else Zpos m / 2 ^ (- e)))
  end.

End WithPlatform.
End PyMath.

Section Distance.

Variable P : platform.

Notation "x <- m ;; k" := (rbind m (fun x => k))
  (at level 100, m at next level, right associativity).

(** Great-circle distance in meters. *)
Definition _haversine_m (lat1 lon1 lat2 lon2 : float) : result float :=
  let r := F64.of_Z 6371000 in
  let p1 := PyMath.radians lat1 in
  let p2 := PyMath.radians lat2 in
  let dp := PyMath.radians (F64.sub lat2 lat1) in
  let dl := PyMath.radians (F64.sub lon2 lon1) in
  sdp <- PyMath.sin P (F64.div dp F64.two) ;;
  sdp2 <- PyMath.pow2 P sdp ;;
  cp1 <- PyMath.cos P p1 ;;
  cp2 <- PyMath.cos P p2 ;;
  sdl <- PyMath.sin P (F64.div dl F64.two) ;;
  sdl2 <- PyMath.pow2 P sdl ;;
  let a := F64.add sdp2 (F64.mul (F64.mul cp1 cp2) sdl2) in
  sq <- PyMath.sqrt a ;;
  asn <- PyMath.asin P sq ;;
  ok (F64.mul (F64.mul F64.two r) asn).

(** [round(_haversine_m(latitude, longitude, plat, plon))] *)
Definition rounded_distance (latitude longitude plat plon : float) : result Z :=
  d <- _haversine_m latitude longitude plat plon ;;
  PyMath.round d.

End Distance.

(** ** Output records *)

Inductive pyval :=
  | PyNone
  | PyStr (s : string)
  | PyInt (z : Z).

Definition of_opt_str (o : option string) : pyval :=
  match o with
  | Some s => PyStr s
  | None => PyNone
  end.

(** An output record is a Python dict from key names to values. *)
Abbreviation record := (gmap string pyval).

(** Normalize to the required 4-key output format. *)
Definition _to_output_record (name address : option string) (distance_m : Z)
  : record :=
  <["name" := of_opt_str name]>
    (<["address" := of_opt_str address]>
       (<["rating" := PyNone]>
          (<["distance_m" := PyInt distance_m]> ∅))).

(** ** [list.sort(key=...)] and slicing

    [list.sort] evaluates the key of every item first and then sorts
    stably by the keys. *)

Section Sort.

Context {A : Type}.

Fixpoint insert_keyed (k : Z) (x : A) (l : list (Z * A)) : list (Z * A) :=
  match l with
  | [] => [(k, x)]
  | (k', y) :: l' =>
      if k <=? k' then (k, x) :: l else (k', y) :: insert_keyed k x l'
  end.

Fixpoint sort_keyed (l : list (Z * A)) : list (Z * A) :=
  match l with
  | [] => []
  | (k, x) :: l' => insert_keyed k x (sort_keyed l')
  end.

Fixpoint with_keys (key : A -> result Z) (l : list A) : result (list (Z * A)) :=
  match l with
  | [] => ok []
  | x :: l' =>
      rbind (key x) (fun k =>
      rbind (with_keys key l') (fun kl => ok ((k, x) :: kl)))
  end.

Definition py_sort (key : A -> result Z) (l : list A) : result (list A) :=
  rbind (with_keys key l) (fun kl => ok (map snd (sort_keyed kl))).

End Sort.

(** [lambda x: x["distance_m"]] *)
Definition distance_key (x : record) : result Z :=
  match x !! "distance_m" with
  | Some (PyInt d) => ok d
  | Some _ => err (Exn TypeError "'<' not supported between instances")
  | None => err (Exn KeyError "'distance_m'")
  end.

(** [records.sort(key=lambda x: x["distance_m"])] then
    [records[: max(0, int(top_n))]] *)
Definition sort_and_truncate (records : list record) (top_n : Z)
  : result (list record) :=
  rbind (py_sort distance_key records) (fun sorted =>
  ok (firstn (Z.to_nat (Z.max 0 top_n)) sorted)).

(** ** Query builder *)

Section Queries.

Variable P : platform.

Definition dq : string := String "034"%char EmptyString.
Definition nl : string := String "010"%char EmptyString.
Definition bslash : string := String "092"%char EmptyString.

Definition around (radius_m : Z) (latitude longitude : float) : string :=
  "(around:" +:+ pretty radius_m +:+ "," +:+ float_repr P latitude
    +:+ "," +:+ float_repr P longitude +:+ ");".

(** One [kind[filters](around:...);] line with its indentation. *)
Definition clause (indent kind filters : string)
    (radius_m : Z) (latitude longitude : float) : string :=
  indent +:+ kind +:+ filters +:+ around radius_m latitude longitude +:+ nl.

(** The same filter for [node], [way] and [relation]. *)
Definition three_kinds (indent filters : string)
    (radius_m : Z) (latitude longitude : float) : string :=
  clause indent "node" filters radius_m latitude longitude
    +:+ clause indent "way" filters radius_m latitude longitude
    +:+ clause indent "relation" filters radius_m latitude longitude.

Definition amenity_is (v : string) : string :=
  "[" +:+ dq +:+ "amenity" +:+ dq +:+ "=" +:+ dq +:+ v +:+ dq +:+ "]".

Definition veterinary_query (radius_m : Z) (latitude longitude : float) : string :=
  nl +:+ "    [out:json][timeout:25];" +:+ nl
    +:+ "    (" +:+ nl
    +:+ three_kinds "      " (amenity_is "veterinary") radius_m latitude longitude
    +:+ "    );" +:+ nl
    +:+ "    out center tags;" +:+ nl
    +:+ "    ".

(** The two filters of strict mode, with the backslashes their
    literals put in front of each quote. *)
Definition dog_filter : string :=
  "[" +:+ bslash +:+ dq +:+ "dog" +:+ bslash +:+ dq +:+ "~"
    +:+ bslash +:+ dq +:+ "^(yes|outside)$" +:+ bslash +:+ dq +:+ "]".
Definition pets_filter : string :=
  "[" +:+ bslash +:+ dq +:+ "pets" +:+ bslash +:+ dq +:+ "="
    +:+ bslash +:+ dq +:+ "yes" +:+ bslash +:+ dq +:+ "]".

Definition food_query (strict : bool) (radius_m : Z) (latitude longitude : float)
  : string :=
  let ind := "          " in
  if strict then
    nl +:+ "        [out:json][timeout:25];" +:+ nl
      +:+ "        (" +:+ nl
      +:+ three_kinds ind (amenity_is "restaurant" +:+ dog_filter)
            radius_m latitude longitude
      +:+ nl
      +:+ three_kinds ind (amenity_is "cafe" +:+ dog_filter)
            radius_m latitude longitude
      +:+ nl
      +:+ three_kinds ind (amenity_is "restaurant" +:+ pets_filter)
            radius_m latitude longitude
      +:+ nl
      +:+ three_kinds ind (amenity_is "cafe" +:+ pets_filter)
            radius_m latitude longitude
      +:+ "        );" +:+ nl
      +:+ "        out center tags;" +:+ nl
      +:+ "        "
  else
    nl +:+ "        [out:json][timeout:25];" +:+ nl
      +:+ "        (" +:+ nl
      +:+ three_kinds ind
            ("[" +:+ dq +:+ "amenity" +:+ dq +:+ "~" +:+ dq
               +:+ "^(restaurant|cafe)$" +:+ dq +:+ "]")
            radius_m latitude longitude
      +:+ "        );" +:+ nl
      +:+ "        out center tags;" +:+ nl
      +:+ "        ".

End Queries.

(** ** The searches *)

(** Keyword arguments a caller may pass through [**kwargs]. *)
Record kwargs := Kwargs {
  kw_strict : option bool;
  kw_overpass_url : option string;
  kw_user_agent : option string
}.

Definition no_kwargs : kwargs := Kwargs None None None.

Section Search.

Variable P : platform.
Variable net : network.

(** [tags = el.get("tags") or {}] *)
Definition tags_of (el : element) : gmap string string :=
  default ∅ (el_tags el).

(** [data.get("elements", [])] *)
Definition elements_of (data : overpass_data) : list element :=
  default [] (elements data).

(** The [for el in ...] loop of [search_nearby_veterinary]; [records]
    is the list built so far. *)
Fixpoint veterinary_loop (latitude longitude : float) (els : list element)
    (records : list record) : result (list record) :=
  match els with
  | [] => ok records
  | el :: rest =>
      match _extract_center el with
      | None => veterinary_loop latitude longitude rest records
      | Some (plat, plon) =>
          let tags := tags_of el in
          let name := PyStr.get_truthy tags "name" in
          let address := _build_address tags in
          rbind (rounded_distance P latitude longitude plat plon) (fun dist =>
          veterinary_loop latitude longitude rest
            (records ++ [_to_output_record name address dist]))
      end
  end.

Definition search_nearby_veterinary (latitude longitude : float)
    (radius_m top_n : Z) (overpass_url user_agent : string)
  : io (list record) :=
  let query := veterinary_query P radius_m latitude longitude in
  (data <- _overpass_post net query overpass_url user_agent 45 6 ;;
   records <- lift (veterinary_loop latitude longitude (elements_of data) []) ;;
   lift (sort_and_truncate records top_n))%io.

(** [key = (name or "", address or "")] *)
Definition dedup_key (name address : option string) : string * string :=
  (default EmptyString name, default EmptyString address).

(** The [for el in ...] loop of [search_nearby_pet_friendly_food], with
    the set [seen] and the list [records] built so far. *)
Fixpoint food_loop (latitude longitude : float) (els : list element)
    (seen : gset (string * string)) (records : list record)
  : result (list record) :=
  match els with
  | [] => ok records
  | el :: rest =>
      match _extract_center el with
      | None => food_loop latitude longitude rest seen records
      | Some (plat, plon) =>
          let tags := tags_of el in
          let name := PyStr.get_truthy tags "name" in
          let address := _build_address tags in
          rbind (rounded_distance P latitude longitude plat plon) (fun dist =>
          let key := dedup_key name address in
          if bool_decide (key ∈ seen) then
            food_loop latitude longitude rest seen records
          else
            food_loop latitude longitude rest ({[key]} ∪ seen)
              (records ++ [_to_output_record name address dist]))
      end
  end.

Definition search_nearby_pet_friendly_food (latitude longitude : float)
    (radius_m top_n : Z) (strict : bool) (overpass_url user_agent : string)
  : io (list record) :=
  let query := food_query P strict radius_m latitude longitude in
  (data <- _overpass_post net query overpass_url user_agent 45 6 ;;
   records <- lift (food_loop latitude longitude (elements_of data) ∅ []) ;;
   lift (sort_and_truncate records top_n))%io.

(** Calling the two searches with [**kwargs]: omitted keywords take
    the defaults of the signature, and [strict] is not a parameter of
    the veterinary search. *)
Definition call_veterinary (latitude longitude : float) (radius_m top_n : Z)
    (kw : kwargs) : io (list record) :=
  match kw_strict kw with
  | Some _ =>
      raise (Exn TypeError
               "search_nearby_veterinary() got an unexpected keyword argument 'strict'")
  | None =>
      search_nearby_veterinary latitude longitude radius_m top_n
        (default DEFAULT_OVERPASS_URL (kw_overpass_url kw))
        (default DEFAULT_USER_AGENT (kw_user_agent kw))
  end.

Definition call_pet_friendly_food (latitude longitude : float)
    (radius_m top_n : Z) (kw : kwargs) : io (list record) :=
  search_nearby_pet_friendly_food latitude longitude radius_m top_n
    (default true (kw_strict kw))
    (default DEFAULT_OVERPASS_URL (kw_overpass_url kw))
    (default DEFAULT_USER_AGENT (kw_user_agent kw)).

(** [mode = (mode or "").strip().lower()] *)
Definition normalize_mode (mode : option string) : string :=
  PyStr.lower (PyStr.strip (default EmptyString mode)).

(** Unified entry point. *)
Definition search_nearby (latitude longitude : float) (radius_m top_n : Z)
    (mode : option string) (kw : kwargs) : io (list record) :=
  let mode := normalize_mode mode in
  if String.eqb mode "veterinary" then
    call_veterinary latitude longitude radius_m top_n kw
  else if String.eqb mode "pet_friendly_food" || String.eqb mode "pet_food"
          || String.eqb mode "food" then
    call_pet_friendly_food latitude longitude radius_m top_n kw
  else
    raise (Exn ValueError "mode must be 'veterinary' or 'pet_friendly_food'").

(** Compatibility layer: the Google-style signatures. *)
Definition search_nearby_veterinary_legacy (api_key : string)
    (latitude longitude : float) (radius : Z) (language : option string)
    (top_n : Z) (kw : kwargs) : io (list record) :=
  let _ := (api_key, language) in
  call_veterinary latitude longitude radius top_n kw.

Definition search_nearby_veterinary_v1 (api_key : string)
    (latitude longitude : float) (radius : float) (max_results : Z)
    (field_mask : option string) (kw : kwargs) : io (list record) :=
  let _ := (api_key, field_mask) in
  (radius_m <- lift (PyMath.int_of_float radius) ;;
   call_veterinary latitude longitude radius_m max_results kw)%io.

End Search.

(** * Vocabulary of the specification *)

(** ** Outcomes of one attempt *)

(** How the endpoint's answer to one POST is classified. A failure is a
    raised exception, a transient status, an error status, or a body
    that does not parse. *)
Definition post_transient (o : post_outcome) : bool :=
  match o with
  | PostRaises _ => false
  | PostReturns r => transient_status (status_code r)
  end.

Definition post_exception (o : post_outcome) : option exn :=
  match o with
  | PostRaises e => Some e
  | PostReturns r =>
      if transient_status (status_code r) then None
      else
        match raise_for_status r with
        | inl e => Some e
        | inr _ =>
            match resp_json r with
            | inl e => Some e
            | inr _ => None
            end
        end
  end.

Definition post_success (o : post_outcome) : option overpass_data :=
  match o with
  | PostRaises _ => None
  | PostReturns r =>
      if transient_status (status_code r) then None
      else
        match raise_for_status r, resp_json r with
        | inr _, inr d => Some d
        | _, _ => None
        end
  end.

Definition post_fails (o : post_outcome) : bool :=
  post_transient o || bool_decide (is_Some (post_exception o)).

(** The world after a POST that is answered successfully, and after a
    POST that fails and is followed by a sleep of [d]. *)
Definition after_post (rq : request) (w : world) : world :=
  World (S (w_posts w)) (w_log w ++ [EvPost rq]).

Definition after_failed_attempt (rq : request) (d : Q) (w : world) : world :=
  World (S (w_posts w)) (w_log w ++ [EvPost rq; EvSleep d]).

(** The locals after a failed attempt: the delay doubles; the remembered
    error changes only when an exception was caught. *)
Definition after_failure (o : post_outcome) (st : retry_state) : retry_state :=
  RetryState (backoff st * 2)
    (match post_exception o with
     | Some e => Some e
     | None => last_err st
     end).

(** ** Traces of the retry loop *)

(** The delay slept after the failed attempt number [i] (counting from
    0): 1.25 doubled [i] times. *)
Definition backoff_delay (i : nat) : Q := (5 * 2 ^ Z.of_nat i) # 4.

(** The delays [time.sleep] is sure to accept: from zero up to the 33rd
    delay of the loop, [1.25 * 2^32] seconds. *)
Definition sleepable (d : Q) : Prop := (0 <= d)%Q /\ (d <= backoff_delay 32)%Q.

(** What [time.sleep] raises for the 34th delay, [1.25 * 2^33] seconds. *)
Definition sleep_refused : exn :=
  Exn OverflowError "timestamp too large to convert to C _PyTime_t".

(** What [n] failed attempts starting at number [i] leave in the log. *)
Definition failed_trace (rq : request) (i n : nat) : list event :=
  flat_map (fun j => [EvPost rq; EvSleep (backoff_delay j)]) (seq i n).

(** The exception remembered after the POSTs [k .. k+n-1]. *)
Fixpoint remembered_error (net : network) (rq : request) (k n : nat)
    (prev : option exn) : option exn :=
  match n with
  | O => prev
  | S n' =>
      remembered_error net rq (S k) n'
        (match post_exception (net k rq) with
         | Some e => Some e
         | None => prev
         end)
  end.

(** ** Endpoint stubs *)

Definition resp_429 : response :=
  Response 429 "Too Many Requests" DEFAULT_OVERPASS_URL
    (inl (Exn JSONDecodeError "Expecting value: line 1 column 1 (char 0)")).

Definition resp_ok (d : overpass_data) : response :=
  Response 200 "OK" DEFAULT_OVERPASS_URL (inr d).

(** Every POST is answered 429. *)
Definition net_always_429 : network := fun _ _ => PostReturns resp_429.

(** The first POST times out, every later one is answered 429. *)
Definition net_timeout_then_429 : network :=
  fun k _ =>
    match k with
    | O => PostRaises (Exn Timeout "Read timed out.")
    | S _ => PostReturns resp_429
    end.

(** The first [n] POSTs are answered 429, the next ones 200 with [d]. *)
Definition net_429_then_ok (n : nat) (d : overpass_data) : network :=
  fun k _ => if (k <? n)%nat then PostReturns resp_429 else PostReturns (resp_ok d).

Definition rq_demo : request :=
  Request DEFAULT_OVERPASS_URL "q" DEFAULT_USER_AGENT "application/json" 45.

(** ** Sorted output *)

(** The distance stored in a record. *)
Definition distance_of (r : record) : Z :=
  match r !! "distance_m" with
  | Some (PyInt d) => d
  | _ => 0
  end.

Definition by_distance (r1 r2 : record) : Prop := distance_of r1 <= distance_of r2.

(** The stable sort by a total key. *)
Definition sort_by {A} (f : A -> Z) (l : list A) : list A :=
  map snd (sort_keyed (map (fun x => (f x, x)) l)).

Definition keyed_le {A} (a b : Z * A) : Prop := fst a <= fst b.

(** ** Candidates and deduplication *)

(** What an element with coordinates contributes to the result. *)
Record candidate := Candidate {
  cand_name : option string;
  cand_address : option string;
  cand_dist : Z
}.

Definition record_of (c : candidate) : record :=
  _to_output_record (cand_name c) (cand_address c) (cand_dist c).

Definition cand_key (c : candidate) : string * string :=
  dedup_key (cand_name c) (cand_address c).

(** The pair a record is identified by in the food search. *)
Definition name_address (r : record) : option pyval * option pyval :=
  (r !! "name", r !! "address").

(** The keys every output record has. *)
Definition four_keys : gset string :=
  {[ "name"; "address"; "rating"; "distance_m" ]}.

Definition well_formed_record (r : record) : Prop :=
  dom r = four_keys /\ r !! "rating" = Some PyNone.

Section Candidates.

Variable P : platform.
Variables latitude longitude : float.

(** One pass of the loop body up to the dedup test: [None] when the
    element has no coordinates and is skipped. *)
Definition candidate_of (el : element) : option (result candidate) :=
  match _extract_center el with
  | None => None
  | Some (plat, plon) =>
      Some (rbind (rounded_distance P latitude longitude plat plon) (fun dist =>
            ok (Candidate (PyStr.get_truthy (tags_of el) "name")
                  (_build_address (tags_of el)) dist)))
  end.

(** The candidates of a response, in the order of its elements; the
    first distance that cannot be computed raises. *)
Fixpoint candidates (els : list element) : result (list candidate) :=
  match els with
  | [] => ok []
  | el :: rest =>
      match candidate_of el with
      | None => candidates rest
      | Some rc =>
          rbind rc (fun c =>
          rbind (candidates rest) (fun cs => ok (c :: cs)))
      end
  end.

End Candidates.

(** Keeping, of the candidates whose key is not in [seen], the first of
    each key. *)
Fixpoint first_occurrences (seen : gset (string * string)) (cs : list candidate)
  : list candidate :=
  match cs with
  | [] => []
  | c :: cs' =>
      if bool_decide (cand_key c ∈ seen) then first_occurrences seen cs'
      else c :: first_occurrences ({[cand_key c]} ∪ seen) cs'
  end.

(** The two categories of search. *)
Inductive category :=
  | Veterinary
  | PetFriendlyFood (strict : bool).

Definition category_query (P : platform) (cat : category)
    (radius_m : Z) (latitude longitude : float) : string :=
  match cat with
  | Veterinary => veterinary_query P radius_m latitude longitude
  | PetFriendlyFood strict => food_query P strict radius_m latitude longitude
  end.

Definition category_search (P : platform) (net : network) (cat : category)
    (latitude longitude : float) (radius_m top_n : Z)
    (overpass_url user_agent : string) : io (list record) :=
  match cat with
  | Veterinary =>
      search_nearby_veterinary P net latitude longitude radius_m top_n
        overpass_url user_agent
  | PetFriendlyFood strict =>
      search_nearby_pet_friendly_food P net latitude longitude radius_m top_n
        strict overpass_url user_agent
  end.

(** The candidates a category keeps. *)
Definition category_keeps (cat : category) (cs : list candidate) : list candidate :=
  match cat with
  | Veterinary => cs
  | PetFriendlyFood _ => first_occurrences ∅ cs
  end.

(** ** A small world to run the searches in *)

(** A toy C library: small-angle approximations. *)
Definition toy_platform : platform :=
  Platform (fun x => x) (fun _ => F64.one) (fun x => x)
    (fun x _ => F64.mul x x) (fun _ => "0.0").

Definition el_at (lat lon : Z) (tags : gmap string string) : element :=
  Element (Some (F64.of_Z lat)) (Some (F64.of_Z lon)) None (Some tags).

(** Two places called Cafe A (a node and, further away, the center of
    its way), one called Vet B, and one element without coordinates. *)
Definition demo_data : overpass_data :=
  Data (Some [ el_at 2 0 {[ "name" := "Cafe A" ]};
               Element None None None (Some {[ "name" := "Nowhere" ]});
               el_at 1 0 {[ "name" := "Vet B" ]};
               Element None None (Some (Center (Some (F64.of_Z 3)) (Some F64.zero)))
                 (Some {[ "name" := "Cafe A" ]}) ]).

Definition net_demo : network := fun _ _ => PostReturns (resp_ok demo_data).

Definition demo_candidates : list candidate :=
  [ Candidate (Some "Cafe A") None 222390;
    Candidate (Some "Vet B") None 111195;
    Candidate (Some "Cafe A") None 333585 ].

Definition demo_search (cat : category) (top_n : Z) : io (list record) :=
  category_search toy_platform net_demo cat F64.zero F64.zero 1500 top_n
    DEFAULT_OVERPASS_URL DEFAULT_USER_AGENT.

Definition demo_post (cat : category) : io overpass_data :=
  _overpass_post net_demo
    (category_query toy_platform cat 1500 F64.zero F64.zero)
    DEFAULT_OVERPASS_URL DEFAULT_USER_AGENT 45 6.

(** ** Entry points *)

(** A call of one of the public search functions with its arguments. *)
Inductive search_call :=
  | CallVeterinary (latitude longitude : float) (radius_m top_n : Z)
      (overpass_url user_agent : string)
  | CallPetFriendlyFood (latitude longitude : float) (radius_m top_n : Z)
      (strict : bool) (overpass_url user_agent : string)
  | CallNearby (latitude longitude : float) (radius_m top_n : Z)
      (mode : option string) (kw : kwargs)
  | CallLegacy (api_key : string) (latitude longitude : float) (radius : Z)
      (language : option string) (top_n : Z) (kw : kwargs).

Definition run_search (P : platform) (net : network) (c : search_call)
  : io (list record) :=
  match c with
  | CallVeterinary lat lon radius_m top_n url ua =>
      search_nearby_veterinary P net lat lon radius_m top_n url ua
  | CallPetFriendlyFood lat lon radius_m top_n strict url ua =>
      search_nearby_pet_friendly_food P net lat lon radius_m top_n strict url ua
  | CallNearby lat lon radius_m top_n mode kw =>
      search_nearby P net lat lon radius_m top_n mode kw
  | CallLegacy api_key lat lon radius language top_n kw =>
      search_nearby_veterinary_legacy P net api_key lat lon radius language top_n kw
  end.

(** Names and addresses are never the empty string, so the key of the
    [seen] set determines the pair (name, address). *)
Definition clean (c : candidate) : Prop :=
  cand_name c <> Some EmptyString /\ cand_address c <> Some EmptyString.

(** ** Coordinates and the C library *)

(** A latitude/longitude pair a caller may pass: two binary64 values
    with [-90 <= lat <= 90] and [-180 <= lon <= 180]. *)
Definition valid_latlon (lat lon : float) : bool :=
  F64.valid lat && F64.valid lon
  && F64.leb (F64.of_Z (-90)) lat && F64.leb lat (F64.of_Z 90)
  && F64.leb (F64.of_Z (-180)) lon && F64.leb lon (F64.of_Z 180).

(** What the C standard (Annex F) promises of the libm functions used:
    [sin] and [asin] map +0 to +0, and [cos] of a finite argument lies
    in [-1, 1]. *)
Record libm_conforms (P : platform) : Prop := LibmConforms {
  sin_zero : c_sin P F64.zero = F64.zero;
  asin_zero : c_asin P F64.zero = F64.zero;
  cos_range : forall x,
    F64.is_finite x = true ->
    F64.valid (c_cos P x) = true
    /\ F64.leb (SFabs (c_cos P x)) F64.one = true
}.

(** Zero, or finite with a mantissa below [2^53] and an exponent of
    at most [b]. *)
Definition small (b : Z) (x : float) : Prop :=
  match x with
  | S754_zero _ => True
  | S754_finite _ m e => Zpos m < 2 ^ 53 /\ e <= b
  | _ => False
  end.

(** The modes [search_nearby] routes to a search. *)
Definition recognized_mode (mode : option string) : bool :=
  let m := normalize_mode mode in
  String.eqb m "veterinary" || String.eqb m "pet_friendly_food"
  || String.eqb m "pet_food" || String.eqb m "food".

Definition mode_error : exn :=
  Exn ValueError "mode must be 'veterinary' or 'pet_friendly_food'".

(** ** Observations on the log of a run *)

(** The seconds slept in a log, added up. *)
Fixpoint total_sleep (log : list event) : Q :=
  match log with
  | [] => 0
  | EvSleep d :: rest => (d + total_sleep rest)%Q
  | EvPost _ :: rest => total_sleep rest
  end.

(** The requests posted in a log, oldest first. *)
Fixpoint posted (log : list event) : list request :=
  match log with
  | [] => []
  | EvPost r :: rest => r :: posted rest
  | EvSleep _ :: rest => posted rest
  end.

(** 1.25 + 2.5 + ... + 1.25 * 2^(n-1). *)
Definition sleep_sum (n : nat) : Q := (5 * (2 ^ Z.of_nat n - 1)) # 4.

(** The request [_overpass_post] builds from its arguments. *)
Definition request_of (query url ua : string) (timeout_s : Z) : request :=
  Request url query ua "application/json" timeout_s.

(** ** Shape of an address *)

Definition starts_with_space (s : string) : bool :=
  match s with
  | EmptyString => false
  | String c _ => PyStr.isspace c
  end.

Fixpoint ends_with_space (s : string) : bool :=
  match s with
  | EmptyString => false
  | String c EmptyString => PyStr.isspace c
  | String _ s' => ends_with_space s'
  end.

(** The tag keys [_build_address] reads. *)
Definition address_tag_keys : list string :=
  "addr:full" :: address_keys ++ ["contact:address"].

(** ** Elements with and without coordinates *)

(** The element has a direct [lat]/[lon] pair or a complete [center]. *)
Definition has_coordinates (el : element) : bool :=
  match _extract_center el with
  | Some _ => true
  | None => false
  end.

(** The record the loops build for an element whose coordinates are
    [(plat, plon)] and whose rounded distance is [dist]. *)
Definition element_record (el : element) (dist : Z) : record :=
  _to_output_record (PyStr.get_truthy (tags_of el) "name")
    (_build_address (tags_of el)) dist.

Definition has_distance (d : Z) (r : record) : bool := distance_of r =? d.

(** ** Signs and mirror images of floats *)

(** Not a negative number: NaN, a zero of either sign, a positive
    finite number or plus infinity. *)
Definition not_negative (x : float) : Prop :=
  match x with
  | S754_finite true _ _ | S754_infinity true => False
  | _ => True
  end.

(** [b] is [a] negated, or both are +0: how [y - x] relates to [x - y]. *)
Definition mirrored (a b : float) : Prop :=
  b = SFopp a \/ (a = F64.zero /\ b = F64.zero).

(** [asin] keeps the sign of a non-negative argument, and [sin] is odd. *)
Definition asin_keeps_sign (P : platform) : Prop :=
  forall x, not_negative x -> not_negative (c_asin P x).

Definition sin_is_odd (P : platform) : Prop :=
  forall x, c_sin P (SFopp x) = SFopp (c_sin P x).

(** ** Values of the name and address fields *)

(** [None], or a non-empty string without whitespace at either end
    when [stripped] is set. *)
Definition clean_field (stripped : bool) (v : pyval) : Prop :=
  match v with
  | PyNone => True
  | PyStr s =>
      s <> EmptyString
      /\ (stripped = true ->
          starts_with_space s = false /\ ends_with_space s = false)
  | PyInt _ => False
  end.

(** * Verification *)

(** ** The clock: which delays are slept *)

Lemma sleep_error_sleepable (d : Q) : sleepable d -> sleep_error d = None.
Proof.
  intros [H0 H1]. destruct d as [n q].
  unfold Qle, backoff_delay in H0, H1. cbn [Qnum Qden] in H0, H1.
  change (2 ^ Z.of_nat 32) with 4294967296 in H1.
  unfold sleep_error, nanoseconds, PyTime_MIN, PyTime_MAX. cbn [Qnum Qden].
  change (10 ^ 9) with 1000000000.
  change (2 ^ 63) with 9223372036854775808.
  assert (Hn : 0 <= n) by lia.
  replace (0 <=? n * 1000000000) with true by (symmetry; apply Z.leb_le; lia).
  assert (Hlo : - (n * 1000000000) / Z.pos q <= 0).
  { apply Z.div_le_upper_bound; lia. }
  assert (Hhi : - 5368709120000000000 <= - (n * 1000000000) / Z.pos q).
  { apply Z.div_le_lower_bound; lia. }
  replace (_ <? _) with false by (symmetry; apply Z.ltb_ge; lia).
  replace (_ <? _) with false by (symmetry; apply Z.ltb_ge; lia).
  replace (_ <? 0) with false by (symmetry; apply Z.ltb_ge; lia).
  reflexivity.
Qed.

Lemma backoff_delay_sleepable (i : nat) : (i <= 32)%nat -> sleepable (backoff_delay i).
Proof.
  intros Hi. unfold sleepable, backoff_delay, Qle. cbn [Qnum Qden].
  assert (0 < 2 ^ Z.of_nat i) by (apply Z.pow_pos_nonneg; lia).
  assert (2 ^ Z.of_nat i <= 2 ^ Z.of_nat 32) by (apply Z.pow_le_mono_r; lia).
  lia.
Qed.

Lemma sleep_error_backoff_delay (i : nat) :
  (i <= 32)%nat -> sleep_error (backoff_delay i) = None.
Proof. intros Hi. apply sleep_error_sleepable, backoff_delay_sleepable, Hi. Qed.

(** The 34th delay, [1.25 * 2^33] seconds, is more than [2^63 - 1]
    nanoseconds. *)
Lemma sleep_error_backoff_delay_33 :
  sleep_error (backoff_delay 33) = Some sleep_refused.
Proof. reflexivity. Qed.

(** A negative delay is refused as well. *)
Lemma time_sleep_negative (w : world) :
  time_sleep (-1) w = (inl (Exn ValueError "sleep length must be non-negative"), w).
Proof. reflexivity. Qed.

(** ** Transport client: one attempt *)

Section TransportFacts.

Variable net : network.
Variable rq : request.

Lemma post_fails_or_succeeds (o : post_outcome) :
  post_fails o = true \/ exists d, post_success o = Some d.
Proof.
  unfold post_fails, post_success, post_exception, post_transient.
  destruct o as [e | r]; simpl; [left; reflexivity |].
  destruct (transient_status (status_code r)); simpl; [left; reflexivity |].
  destruct (raise_for_status r) as [e | []]; simpl; [left; reflexivity |].
  destruct (resp_json r) as [e | d]; simpl; [left; reflexivity |].
  right. exists d. reflexivity.
Qed.

Lemma post_success_not_fails (o : post_outcome) (d : overpass_data) :
  post_success o = Some d -> post_fails o = false.
Proof.
  unfold post_fails, post_success, post_exception, post_transient.
  destruct o as [e | r]; simpl; [discriminate |].
  destruct (transient_status (status_code r)); simpl; [discriminate |].
  destruct (raise_for_status r) as [e | []]; simpl; [discriminate |].
  destruct (resp_json r) as [e | d']; simpl; [discriminate |].
  reflexivity.
Qed.

Lemma app_two {A} (l : list A) (x y : A) : (l ++ [x]) ++ [y] = l ++ [x; y].
Proof. rewrite <- app_assoc. reflexivity. Qed.

(** A failed attempt whose delay [time.sleep] accepts never leaves the
    loop: it sleeps for the current delay and hands the doubled delay to
    the next iteration. *)
Lemma attempt_failure (st : retry_state) (w : world) :
  post_fails (net (w_posts w) rq) = true ->
  sleep_error (backoff st) = None ->
  attempt net rq st w
  = (inr (inr (after_failure (net (w_posts w) rq) st)),
     after_failed_attempt rq (backoff st) w).
Proof.
  intros Hf Hs. revert Hf.
  unfold post_fails, post_exception, post_transient, after_failure,
    after_failed_attempt, attempt, try_except, bind, requests_post,
    time_sleep, ret, lift, post_exception.
  rewrite Hs.
  destruct (net (w_posts w) rq) as [e | r]; simpl.
  - intros _. rewrite app_two. reflexivity.
  - destruct (transient_status (status_code r)); simpl.
    + intros _. rewrite app_two. reflexivity.
    + destruct (raise_for_status r) as [e | []]; simpl.
      * intros _. rewrite app_two. reflexivity.
      * destruct (resp_json r) as [e | d]; simpl.
        -- intros _. rewrite app_two. reflexivity.
        -- intros H. discriminate H.
Qed.

(** A failed attempt whose delay [time.sleep] refuses ends the call: the
    exception of [time.sleep] is raised in the handler (after a
    transient status, once more after having been caught there) and
    leaves [_overpass_post]; nothing is slept and no POST follows. *)
Lemma attempt_sleep_refused (st : retry_state) (w : world) (e : exn) :
  post_fails (net (w_posts w) rq) = true ->
  sleep_error (backoff st) = Some e ->
  attempt net rq st w = (inl e, after_post rq w).
Proof.
  intros Hf Hs. revert Hf.
  unfold post_fails, post_exception, post_transient, after_post, attempt,
    try_except, bind, requests_post, time_sleep, ret, lift, post_exception.
  rewrite Hs.
  destruct (net (w_posts w) rq) as [e' | r]; simpl; [reflexivity |].
  destruct (transient_status (status_code r)); simpl; [reflexivity |].
  destruct (raise_for_status r) as [e' | []]; simpl; [reflexivity |].
  destruct (resp_json r) as [e' | d]; simpl; [reflexivity |].
  intros H. discriminate H.
Qed.

Lemma attempt_success (st : retry_state) (w : world) (d : overpass_data) :
  post_success (net (w_posts w) rq) = Some d ->
  attempt net rq st w = (inr (inl d), after_post rq w).
Proof.
  unfold post_success, after_post, attempt, try_except, bind,
    requests_post, time_sleep, ret, lift.
  destruct (net (w_posts w) rq) as [e | r]; simpl; [discriminate |].
  destruct (transient_status (status_code r)); simpl; [discriminate |].
  destruct (raise_for_status r) as [e | []]; simpl; [discriminate |].
  destruct (resp_json r) as [e | d']; simpl; [discriminate |].
  intros [= ->]. reflexivity.
Qed.

Lemma retry_loop_S (n : nat) (st : retry_state) (w : world) :
  retry_loop net rq (S n) st w
  = match attempt net rq st w with
    | (inl e, w') => (inl e, w')
    | (inr (inl d), w') => (inr d, w')
    | (inr (inr st'), w') => retry_loop net rq n st' w'
    end.
Proof.
  simpl. unfold bind. destruct (attempt net rq st w) as [[e | [d | st']] w'];
    reflexivity.
Qed.

Lemma retry_loop_failure (n : nat) (st : retry_state) (w : world) :
  post_fails (net (w_posts w) rq) = true ->
  sleep_error (backoff st) = None ->
  retry_loop net rq (S n) st w
  = retry_loop net rq n (after_failure (net (w_posts w) rq) st)
      (after_failed_attempt rq (backoff st) w).
Proof.
  intros H Hs. rewrite retry_loop_S, attempt_failure by assumption. reflexivity.
Qed.

Lemma retry_loop_sleep_refused (n : nat) (st : retry_state) (w : world) (e : exn) :
  post_fails (net (w_posts w) rq) = true ->
  sleep_error (backoff st) = Some e ->
  retry_loop net rq (S n) st w = (inl e, after_post rq w).
Proof.
  intros H Hs. rewrite retry_loop_S, (attempt_sleep_refused _ _ e) by assumption.
  reflexivity.
Qed.

Lemma retry_loop_success (n : nat) (st : retry_state) (w : world)
    (d : overpass_data) :
  post_success (net (w_posts w) rq) = Some d ->
  retry_loop net rq (S n) st w = (inr d, after_post rq w).
Proof.
  intros H. rewrite retry_loop_S, (attempt_success _ _ d) by exact H.
  reflexivity.
Qed.

End TransportFacts.

(** ** Transport client: the whole loop *)

Lemma backoff_delay_0 : backoff_delay 0 = backoff initial_retry_state.
Proof. reflexivity. Qed.

Lemma backoff_delay_double (i : nat) :
  (backoff_delay i * 2)%Q = backoff_delay (S i).
Proof.
  unfold backoff_delay, Qmult. cbn [Qnum Qden].
  rewrite Nat2Z.inj_succ, Z.pow_succ_r by lia.
  f_equal. lia.
Qed.

Lemma backoff_delay_closed_form (i : nat) :
  (backoff_delay i == (5 # 4) * 2 ^ Z.of_nat i)%Q.
Proof.
  induction i as [| i IH].
  - reflexivity.
  - rewrite <- backoff_delay_double, IH.
    rewrite Nat2Z.inj_succ. unfold Z.succ.
    rewrite Qpower_plus by discriminate.
    change (2 ^ 1)%Q with 2%Q. ring.
Qed.

Section LoopFacts.

Variable net : network.
Variable rq : request.

Lemma failed_trace_S (i n : nat) :
  failed_trace rq i (S n)
  = [EvPost rq; EvSleep (backoff_delay i)] ++ failed_trace rq (S i) n.
Proof. reflexivity. Qed.

(** [N] failures in a row consume [N] iterations, as long as the delays
    stay among the first 33. *)
Lemma retry_loop_failures (N : nat) :
  forall (n i : nat) (st : retry_state) (w : world),
    backoff st = backoff_delay i ->
    (i + N <= 33)%nat ->
    (forall k, (k < N)%nat -> post_fails (net (w_posts w + k)%nat rq) = true) ->
    retry_loop net rq (N + n) st w
    = retry_loop net rq n
        (RetryState (backoff_delay (i + N))
           (remembered_error net rq (w_posts w) N (last_err st)))
        (World (w_posts w + N) (w_log w ++ failed_trace rq i N)).
Proof.
  induction N as [| N IH]; intros n i st w Hb Hi Hfail.
  - simpl. rewrite !Nat.add_0_r, app_nil_r, <- Hb.
    destruct st, w; reflexivity.
  - change (S N + n)%nat with (S (N + n)).
    assert (H0 : post_fails (net (w_posts w) rq) = true).
    { specialize (Hfail 0%nat). rewrite Nat.add_0_r in Hfail.
      apply Hfail. lia. }
    assert (Hs : sleep_error (backoff st) = None).
    { rewrite Hb. apply sleep_error_backoff_delay. lia. }
    rewrite retry_loop_failure by assumption.
    rewrite (IH n (S i)).
    + unfold after_failed_attempt, after_failure. cbn [w_posts w_log last_err backoff].
      rewrite failed_trace_S, Hb, <- app_assoc.
      replace (i + S N)%nat with (S i + N)%nat by lia.
      replace (w_posts w + S N)%nat with (S (w_posts w) + N)%nat by lia.
      reflexivity.
    + unfold after_failure. cbn [backoff]. rewrite Hb.
      apply backoff_delay_double.
    + lia.
    + intros k Hk. unfold after_failed_attempt. cbn [w_posts].
      replace (S (w_posts w) + k)%nat with (w_posts w + S k)%nat by lia.
      apply Hfail. lia.
Qed.

(** The loop only ever appends to the log. *)
Lemma retry_loop_log_extends (n : nat) :
  forall (st : retry_state) (w : world),
    exists tl, w_log (snd (retry_loop net rq n st w)) = w_log w ++ tl.
Proof.
  induction n as [| n IH]; intros st w.
  - exists []. simpl. rewrite app_nil_r. reflexivity.
  - destruct (post_fails_or_succeeds (net (w_posts w) rq)) as [Hf | [d Hs]].
    + destruct (sleep_error (backoff st)) as [e |] eqn:Hsl.
      * rewrite (retry_loop_sleep_refused _ _ _ _ _ e) by assumption.
        unfold after_post. simpl. eexists. reflexivity.
      * rewrite retry_loop_failure by assumption.
        destruct (IH (after_failure (net (w_posts w) rq) st)
                    (after_failed_attempt rq (backoff st) w)) as [tl Htl].
        rewrite Htl. unfold after_failed_attempt. cbn [w_log].
        rewrite <- app_assoc. eexists. reflexivity.
    + rewrite (retry_loop_success _ _ _ _ _ d) by exact Hs.
      unfold after_post. simpl. eexists. reflexivity.
Qed.

(** An iteration begins with a POST. *)
Lemma retry_loop_posts_first (n : nat) (st : retry_state) (w : world) :
  exists tl,
    w_log (snd (retry_loop net rq (S n) st w)) = w_log w ++ EvPost rq :: tl.
Proof.
  destruct (post_fails_or_succeeds (net (w_posts w) rq)) as [Hf | [d Hs]].
  - destruct (sleep_error (backoff st)) as [e |] eqn:Hsl.
    + rewrite (retry_loop_sleep_refused _ _ _ _ _ e) by assumption.
      unfold after_post. simpl. eexists. reflexivity.
    + rewrite retry_loop_failure by assumption.
      destruct (retry_loop_log_extends n
                  (after_failure (net (w_posts w) rq) st)
                  (after_failed_attempt rq (backoff st) w)) as [tl Htl].
      rewrite Htl. unfold after_failed_attempt. cbn [w_log].
      rewrite <- app_assoc. eexists. reflexivity.
  - rewrite (retry_loop_success _ _ _ _ _ d) by exact Hs.
    unfold after_post. simpl. eexists. reflexivity.
Qed.

(** When every attempt of a budget of at most 33 fails the loop runs out
    and raises, naming the remembered exception. *)
Lemma retry_loop_exhausted (N : nat) (st : retry_state) (w : world) (i : nat) :
  backoff st = backoff_delay i ->
  (i + N <= 33)%nat ->
  (forall k, (k < N)%nat -> post_fails (net (w_posts w + k)%nat rq) = true) ->
  retry_loop net rq N st w
  = (inl (Exn RuntimeError
            ("Overpass request failed after retries: "
               +:+ str_opt_exn
                     (remembered_error net rq (w_posts w) N (last_err st)))),
     World (w_posts w + N) (w_log w ++ failed_trace rq i N)).
Proof.
  intros Hb Hi Hfail.
  rewrite <- (Nat.add_0_r N) at 1.
  rewrite (retry_loop_failures N 0 i) by assumption.
  reflexivity.
Qed.

(** When the first 34 attempts of a larger budget fail, the 34th delay
    is refused by [time.sleep] and its [OverflowError] ends the call:
    34 POSTs and 33 sleeps have been made. *)
Lemma retry_loop_overflow (n : nat) (st : retry_state) (w : world) :
  backoff st = backoff_delay 0 ->
  (forall k, (k < 34)%nat -> post_fails (net (w_posts w + k)%nat rq) = true) ->
  retry_loop net rq (34 + n) st w
  = (inl sleep_refused,
     World (w_posts w + 34) (w_log w ++ failed_trace rq 0 33 ++ [EvPost rq])).
Proof.
  intros Hb Hfail.
  change (34 + n)%nat with (33 + S n)%nat.
  rewrite (retry_loop_failures 33 (S n) 0) by (try assumption; try lia; intros k Hk; apply Hfail; lia).
  rewrite (retry_loop_sleep_refused _ _ _ _ _ sleep_refused).
  - unfold after_post. cbn [w_posts w_log].
    rewrite <- app_assoc. f_equal. f_equal. lia.
  - cbn [w_posts]. apply Hfail. lia.
  - reflexivity.
Qed.

End LoopFacts.

(** ** Transport client: the claims *)

Lemma remembered_error_always_429 (rq : request) (n : nat) :
  forall k prev, remembered_error net_always_429 rq k n prev = prev.
Proof. induction n as [| n IH]; intros k prev; simpl; [reflexivity | apply IH]. Qed.

Lemma remembered_error_last (net : network) (rq : request) (n : nat) :
  forall k prev e,
    post_exception (net (k + n)%nat rq) = Some e ->
    remembered_error net rq k (S n) prev = Some e.
Proof.
  induction n as [| n IH]; intros k prev e He.
  - rewrite Nat.add_0_r in He. simpl. rewrite He. reflexivity.
  - change (remembered_error net rq k (S (S n)) prev)
      with (remembered_error net rq (S k) (S n)
              (match post_exception (net k rq) with
               | Some e' => Some e'
               | None => prev
               end)).
    apply IH. replace (S k + n)%nat with (k + S n)%nat by lia. exact He.
Qed.

(** The part of C1 the code does deliver: when every attempt of a
    budget of at most 33 fails, the client makes exactly [max_retries]
    attempts and raises [RuntimeError]; and when the last attempt failed
    by an exception, the message names that exception. *)
Lemma overpass_post_all_fail
    (net : network) (query url ua : string) (timeout_s max_retries : Z) :
  let rq := Request url query ua "application/json" timeout_s in
  max_retries <= 33 ->
  (forall k, (k < Z.to_nat max_retries)%nat -> post_fails (net k rq) = true) ->
  exists cause w,
    _overpass_post net query url ua timeout_s max_retries w0
    = (inl (Exn RuntimeError
              ("Overpass request failed after retries: " +:+ str_opt_exn cause)),
       w)
    /\ w_posts w = Z.to_nat max_retries
    /\ (forall n e,
          Z.to_nat max_retries = S n ->
          post_exception (net n rq) = Some e -> cause = Some e).
Proof.
  intros rq Hmax Hfail. unfold _overpass_post. fold rq.
  rewrite (retry_loop_exhausted net rq _ _ _ 0%nat);
    [| reflexivity | lia | exact Hfail].
  eexists. eexists. split; [reflexivity |]. split; [reflexivity |].
  intros n e Hn He. rewrite Hn. cbn [w_posts w0].
  apply remembered_error_last. exact He.
Qed.

(** With a budget above 33 and 34 failures in a row the call does not
    even reach its own [raise]: the 34th delay, [1.25 * 2^33] seconds,
    is refused by [time.sleep], whose [OverflowError] leaves the call
    after 34 POSTs. *)
Lemma overpass_post_overflow
    (net : network) (query url ua : string) (timeout_s max_retries : Z) :
  let rq := Request url query ua "application/json" timeout_s in
  33 < max_retries ->
  (forall k, (k < 34)%nat -> post_fails (net k rq) = true) ->
  _overpass_post net query url ua timeout_s max_retries w0
  = (inl sleep_refused, World 34 (failed_trace rq 0 33 ++ [EvPost rq])).
Proof.
  intros rq Hmax Hfail. unfold _overpass_post. fold rq.
  replace (Z.to_nat max_retries) with (34 + (Z.to_nat max_retries - 34))%nat by lia.
  rewrite retry_loop_overflow; [reflexivity | reflexivity | exact Hfail].
Qed.

(** C1, evaluated where it fails: against an endpoint that answers every
    POST with the transient status 429, the client with a budget of at
    most 33 makes exactly [max_retries] attempts and raises, but the
    error it raises carries the text None instead of the cause of the
    last failure. With a larger budget it makes 34 attempts only and
    what it raises is the [OverflowError] of [time.sleep]. *)
Theorem overpass_post_all_429_reports_no_cause
    (query url ua : string) (timeout_s max_retries : Z) :
  exists w,
    _overpass_post net_always_429 query url ua timeout_s max_retries w0
    = (inl (if max_retries <=? 33
            then Exn RuntimeError "Overpass request failed after retries: None"
            else sleep_refused),
       w)
    /\ w_posts w = Nat.min (Z.to_nat max_retries) 34.
Proof.
  destruct (Z.leb_spec max_retries 33) as [Hle | Hgt].
  - unfold _overpass_post.
    rewrite (retry_loop_exhausted _ _ _ _ _ 0%nat); [| reflexivity | lia |].
    + rewrite remembered_error_always_429. eexists. split; [reflexivity |].
      cbn [w_posts w0 Nat.add]. lia.
    + intros k _. reflexivity.
  - rewrite overpass_post_overflow; [| exact Hgt | intros k _; reflexivity].
    eexists. split; [reflexivity |]. cbn [w_posts]. lia.
Qed.

(** A second instance of the same defect: after a timeout followed by
    429 answers the error names the timeout, not the last failure. *)
Example overpass_post_reports_stale_cause :
  fst (_overpass_post net_timeout_then_429 "q" DEFAULT_OVERPASS_URL
         DEFAULT_USER_AGENT 45 3 w0)
  = inl (Exn RuntimeError "Overpass request failed after retries: Read timed out.").
Proof. reflexivity. Qed.

(** C2 as stated does not hold of every failed attempt: with a budget of
    40 and an endpoint that always answers 429, the 34th attempt is not
    the last of the budget and fails, yet no attempt follows it. Its
    delay, [1.25 * 2^33] seconds, is refused by [time.sleep], and the
    [OverflowError] leaves the loop after 34 POSTs and 33 sleeps. *)
Lemma failed_attempt_34_is_not_retried :
  post_fails (net_always_429 33%nat rq_demo) = true
  /\ _overpass_post net_always_429 "q" DEFAULT_OVERPASS_URL DEFAULT_USER_AGENT
       45 40 w0
     = (inl sleep_refused,
        World 34 (failed_trace rq_demo 0 33 ++ [EvPost rq_demo])).
Proof.
  split; [reflexivity |].
  apply (overpass_post_overflow net_always_429 "q" DEFAULT_OVERPASS_URL
           DEFAULT_USER_AGENT 45 40); [lia |].
  intros k _. reflexivity.
Qed.

(** C2, for the delays [time.sleep] accepts: whatever way an attempt
    fails (a transient status 429, 502, 503 or 504, an exception raised
    by the POST, an error status raised by [raise_for_status], or a body
    that fails to parse), if it is not the last attempt of the budget
    and the current delay is one [time.sleep] accepts, the loop goes on:
    it sleeps the current delay, doubles it, and issues another POST. *)
Theorem failed_attempt_is_retried
    (net : network) (rq : request) (n : nat) (st : retry_state) (w : world) :
  post_fails (net (w_posts w) rq) = true ->
  sleepable (backoff st) ->
  retry_loop net rq (S (S n)) st w
  = retry_loop net rq (S n)
      (after_failure (net (w_posts w) rq) st)
      (after_failed_attempt rq (backoff st) w)
  /\ backoff (after_failure (net (w_posts w) rq) st) = (backoff st * 2)%Q
  /\ exists tl,
       w_log (snd (retry_loop net rq (S (S n)) st w))
       = w_log w ++ [EvPost rq; EvSleep (backoff st); EvPost rq] ++ tl.
Proof.
  intros Hf Hsl. apply sleep_error_sleepable in Hsl.
  split; [apply retry_loop_failure; assumption |].
  split; [reflexivity |].
  rewrite retry_loop_failure by assumption.
  destruct (retry_loop_posts_first net rq n
              (after_failure (net (w_posts w) rq) st)
              (after_failed_attempt rq (backoff st) w)) as [tl Htl].
  exists tl. rewrite Htl. unfold after_failed_attempt. cbn [w_log].
  rewrite <- app_assoc. reflexivity.
Qed.

Lemma failed_attempt_is_retried_witness :
  retry_loop net_timeout_then_429 rq_demo 2 initial_retry_state w0
  = retry_loop net_timeout_then_429 rq_demo 1
      (after_failure (net_timeout_then_429 0%nat rq_demo) initial_retry_state)
      (after_failed_attempt rq_demo (5 # 4) w0)
  /\ backoff (after_failure (net_timeout_then_429 0%nat rq_demo) initial_retry_state)
     = ((5 # 4) * 2)%Q
  /\ exists tl,
       w_log (snd (retry_loop net_timeout_then_429 rq_demo 2 initial_retry_state w0))
       = [] ++ [EvPost rq_demo; EvSleep (5 # 4); EvPost rq_demo] ++ tl.
Proof.
  apply (failed_attempt_is_retried net_timeout_then_429 rq_demo 0
           initial_retry_state w0).
  - reflexivity.
  - unfold sleepable, Qle. simpl. lia.
Defined.

(** Every kind of failure is a failure in the sense of C2. *)
Lemma post_fails_cases (o : post_outcome) :
  post_fails o = true <->
  (exists e, o = PostRaises e)
  \/ (exists r, o = PostReturns r
        /\ (transient_status (status_code r) = true
            \/ (exists e, raise_for_status r = inl e)
            \/ (exists e, resp_json r = inl e))).
Proof.
  unfold post_fails, post_transient, post_exception. split.
  - destruct o as [e | r]; [left; eauto |]. intros H. right. exists r.
    split; [reflexivity |].
    destruct (transient_status (status_code r)); [left; reflexivity |].
    destruct (raise_for_status r) as [e | []]; [right; left; eauto |].
    destruct (resp_json r) as [e | d]; [right; right; eauto |].
    simpl in H. discriminate H.
  - intros [[e ->] | [r [-> [H | [[e H] | [e H]]]]]]; simpl.
    + reflexivity.
    + rewrite H. reflexivity.
    + destruct (transient_status (status_code r)); [reflexivity |].
      rewrite H. reflexivity.
    + destruct (transient_status (status_code r)); [reflexivity |].
      destruct (raise_for_status r); [reflexivity |].
      rewrite H. reflexivity.
Qed.

(** C3 as stated does not hold for every [N] below the budget: with a
    budget of 40 and an endpoint answering 429 to the first 34 POSTs and
    200 to the 35th, the client never sends the 35th. The delay after
    the 34th failure, [1.25 * 2^33] seconds, is refused by [time.sleep]
    and the call ends with its [OverflowError]: doubling is capped by
    what [time.sleep] accepts. *)
Lemma overpass_post_does_not_recover_after_34_failures :
  (34 < Z.to_nat 40)%nat
  /\ (forall k, (k < 34)%nat ->
      post_transient (net_429_then_ok 34 (Data None) k rq_demo) = true)
  /\ post_success (net_429_then_ok 34 (Data None) 34%nat rq_demo)
     = Some (Data None)
  /\ _overpass_post (net_429_then_ok 34 (Data None)) "q" DEFAULT_OVERPASS_URL
       DEFAULT_USER_AGENT 45 40 w0
     = (inl sleep_refused,
        World 34 (failed_trace rq_demo 0 33 ++ [EvPost rq_demo])).
Proof.
  assert (Htrans : forall k, (k < 34)%nat ->
            post_transient (net_429_then_ok 34 (Data None) k rq_demo) = true).
  { intros k Hk. unfold net_429_then_ok.
    apply Nat.ltb_lt in Hk. rewrite Hk. reflexivity. }
  split; [vm_compute; lia |]. split; [exact Htrans |]. split; [reflexivity |].
  apply (overpass_post_overflow (net_429_then_ok 34 (Data None)) "q"
           DEFAULT_OVERPASS_URL DEFAULT_USER_AGENT 45 40); [lia |].
  intros k Hk. unfold post_fails.
  change (Request DEFAULT_OVERPASS_URL "q" DEFAULT_USER_AGENT "application/json" 45)
    with rq_demo.
  rewrite (Htrans k Hk). reflexivity.
Qed.

(** C3, for at most 33 failures: when the endpoint answers the first [N]
    POSTs with a transient status and the next one successfully, with
    [N] below the budget and [N <= 33], the client returns the parsed
    body of that answer after [N + 1] POSTs, and the log is: POST, sleep
    1.25, POST, sleep 2.5, ..., POST. The sleep after attempt number [i]
    (from 0) is [1.25 * 2^i], that is [base * 2^(i-1)] between attempts
    [i] and [i+1] counted from 1. *)
Theorem overpass_post_recovers_with_doubling_backoff
    (net : network) (query url ua : string) (timeout_s max_retries : Z)
    (N : nat) (d : overpass_data) :
  let rq := Request url query ua "application/json" timeout_s in
  (N < Z.to_nat max_retries)%nat ->
  (N <= 33)%nat ->
  (forall k, (k < N)%nat -> post_transient (net k rq) = true) ->
  post_success (net N rq) = Some d ->
  exists w,
    _overpass_post net query url ua timeout_s max_retries w0 = (inr d, w)
    /\ w_posts w = S N
    /\ (w_posts w <= Z.to_nat max_retries)%nat
    /\ w_log w
       = flat_map (fun i => [EvPost rq; EvSleep (backoff_delay i)]) (seq 0 N)
           ++ [EvPost rq]
    /\ forall i, (backoff_delay i == (5 # 4) * 2 ^ Z.of_nat i)%Q.
Proof.
  intros rq HN HN33 Htrans Hok. unfold _overpass_post. fold rq.
  replace (Z.to_nat max_retries) with (N + S (Z.to_nat max_retries - S N))%nat
    by lia.
  rewrite (retry_loop_failures net rq N _ 0%nat); [| reflexivity | lia |].
  - rewrite (retry_loop_success _ _ _ _ _ d) by exact Hok.
    eexists. split; [reflexivity |].
    unfold after_post. cbn [w_posts w_log w0 Nat.add app].
    repeat split; try lia; try reflexivity.
    apply backoff_delay_closed_form.
  - intros k Hk. unfold post_fails. cbn [w_posts w0 Nat.add].
    rewrite (Htrans k Hk). reflexivity.
Qed.

Lemma overpass_post_recovers_with_doubling_backoff_witness :
  exists w,
    _overpass_post (net_429_then_ok 2 (Data None)) "q" DEFAULT_OVERPASS_URL
      DEFAULT_USER_AGENT 45 6 w0
    = (inr (Data None), w)
    /\ w_posts w = 3%nat
    /\ (w_posts w <= Z.to_nat 6)%nat
    /\ w_log w
       = flat_map (fun i => [EvPost rq_demo; EvSleep (backoff_delay i)]) (seq 0 2)
           ++ [EvPost rq_demo]
    /\ forall i, (backoff_delay i == (5 # 4) * 2 ^ Z.of_nat i)%Q.
Proof.
  apply (overpass_post_recovers_with_doubling_backoff
           (net_429_then_ok 2 (Data None)) "q" DEFAULT_OVERPASS_URL
           DEFAULT_USER_AGENT 45 6 2 (Data None)).
  - vm_compute. lia.
  - lia.
  - intros k Hk. destruct k as [| [| k]]; [reflexivity | reflexivity | lia].
  - reflexivity.
Defined.

(** ** Sorting and truncation *)

Section SortFacts.

Context {A : Type}.

Lemma insert_keyed_perm (k : Z) (x : A) (l : list (Z * A)) :
  Permutation (insert_keyed k x l) ((k, x) :: l).
Proof.
  induction l as [| [k' y] l IH]; simpl; [reflexivity |].
  destruct (k <=? k'); [reflexivity |].
  rewrite IH. apply perm_swap.
Qed.

Lemma sort_keyed_perm (l : list (Z * A)) : Permutation (sort_keyed l) l.
Proof.
  induction l as [| [k x] l IH]; simpl; [reflexivity |].
  rewrite insert_keyed_perm, IH. reflexivity.
Qed.

Lemma insert_keyed_hd (k : Z) (x : A) (a : Z * A) (l : list (Z * A)) :
  keyed_le a (k, x) -> HdRel keyed_le a l -> HdRel keyed_le a (insert_keyed k x l).
Proof.
  intros Hk Hl. destruct l as [| [k' y] l]; simpl.
  - constructor. exact Hk.
  - destruct (k <=? k'); constructor; [exact Hk |].
    inversion Hl; assumption.
Qed.

Lemma insert_keyed_sorted (k : Z) (x : A) (l : list (Z * A)) :
  Sorted keyed_le l -> Sorted keyed_le (insert_keyed k x l).
Proof.
  induction l as [| [k' y] l IH]; intros Hs; simpl.
  - repeat constructor.
  - destruct (Z.leb_spec k k') as [Hle | Hgt].
    + constructor; [exact Hs |]. constructor. exact Hle.
    + inversion Hs as [| ? ? Hs' Hhd]; subst.
      constructor; [apply IH; exact Hs' |].
      apply insert_keyed_hd; [unfold keyed_le; simpl; lia | exact Hhd].
Qed.

Lemma sort_keyed_sorted (l : list (Z * A)) : Sorted keyed_le (sort_keyed l).
Proof.
  induction l as [| [k x] l IH]; simpl; [constructor |].
  apply insert_keyed_sorted. exact IH.
Qed.

(** Stability: the items of one key keep their order. *)
Lemma insert_keyed_filter (k0 k : Z) (x : A) (l : list (Z * A)) :
  Sorted keyed_le l ->
  List.filter (fun p => fst p =? k0) (insert_keyed k x l)
  = List.filter (fun p => fst p =? k0) ((k, x) :: l).
Proof.
  induction l as [| [k' y] l IH]; intros Hs; [reflexivity |].
  cbn [insert_keyed]. destruct (Z.leb_spec k k') as [Hle | Hgt]; [reflexivity |].
  inversion Hs as [| ? ? Hs' Hhd]; subst.
  cbn [List.filter fst] in *. rewrite (IH Hs'). cbn [List.filter fst].
  destruct (Z.eqb_spec k' k0) as [-> | Hk']; [| reflexivity].
  destruct (Z.eqb_spec k k0) as [-> | Hk]; [lia | reflexivity].
Qed.

Lemma sort_keyed_stable (k0 : Z) (l : list (Z * A)) :
  List.filter (fun p => fst p =? k0) (sort_keyed l)
  = List.filter (fun p => fst p =? k0) l.
Proof.
  induction l as [| [k x] l IH]; [reflexivity |].
  cbn [sort_keyed]. rewrite insert_keyed_filter by apply sort_keyed_sorted.
  cbn [List.filter]. rewrite IH. reflexivity.
Qed.

Variable f : A -> Z.

Lemma sort_by_perm (l : list A) : Permutation (sort_by f l) l.
Proof.
  unfold sort_by. rewrite sort_keyed_perm, map_map. simpl.
  rewrite map_id. reflexivity.
Qed.

Lemma keyed_invariant (l : list (Z * A)) :
  Forall (fun p => fst p = f (snd p)) l ->
  Forall (fun p => fst p = f (snd p)) (sort_keyed l).
Proof.
  intros H. eapply Permutation_Forall; [| exact H].
  symmetry. apply sort_keyed_perm.
Qed.

Lemma Sorted_map_snd (l : list (Z * A)) :
  Forall (fun p => fst p = f (snd p)) l ->
  Sorted keyed_le l ->
  Sorted (fun a b => f a <= f b) (map snd l).
Proof.
  induction l as [| p l IH]; intros Hf Hs; simpl; [constructor |].
  inversion Hf as [| ? ? Hp Hf']; subst.
  inversion Hs as [| ? ? Hs' Hhd]; subst.
  constructor; [apply IH; assumption |].
  destruct l as [| q l]; simpl; constructor.
  inversion Hhd as [| ? ? Hle]; subst. inversion Hf'; subst.
  unfold keyed_le in Hle. congruence.
Qed.

Lemma sort_by_sorted (l : list A) :
  Sorted (fun a b => f a <= f b) (sort_by f l).
Proof.
  unfold sort_by. apply Sorted_map_snd; [| apply sort_keyed_sorted].
  apply keyed_invariant. induction l; simpl; constructor; auto.
Qed.

Lemma sort_by_stable (k0 : Z) (l : list A) :
  List.filter (fun x => f x =? k0) (sort_by f l) = List.filter (fun x => f x =? k0) l.
Proof.
  unfold sort_by.
  assert (Hmap : forall kl : list (Z * A),
             Forall (fun p => fst p = f (snd p)) kl ->
             List.filter (fun x => f x =? k0) (map snd kl)
             = map snd (List.filter (fun p => fst p =? k0) kl)).
  { induction kl as [| p kl IH]; intros Hf; [reflexivity |].
    inversion Hf as [| ? ? Hp Hf']; subst. cbn [map List.filter].
    rewrite <- Hp, (IH Hf'). destruct (fst p =? k0); reflexivity. }
  assert (Hk : Forall (fun p => fst p = f (snd p)) (map (fun x => (f x, x)) l)).
  { induction l; simpl; constructor; auto. }
  rewrite Hmap by (apply keyed_invariant; exact Hk).
  rewrite sort_keyed_stable, <- Hmap by exact Hk.
  rewrite map_map. simpl. rewrite map_id. reflexivity.
Qed.

Lemma Sorted_firstn (R : A -> A -> Prop) (n : nat) (l : list A) :
  Sorted R l -> Sorted R (firstn n l).
Proof.
  revert l. induction n as [| n IH]; intros l Hs; [constructor |].
  destruct l as [| x l]; [constructor |]. simpl.
  inversion Hs as [| ? ? Hs' Hhd]; subst.
  constructor; [apply IH; exact Hs' |].
  destruct n; [constructor |].
  destruct l as [| y l]; simpl; constructor.
  inversion Hhd; assumption.
Qed.

(** [list.sort] with a key that never raises is [sort_by]. *)
Lemma py_sort_total (key : A -> result Z) (l : list A) :
  Forall (fun x => key x = ok (f x)) l ->
  py_sort key l = ok (sort_by f l).
Proof.
  intros H. unfold py_sort, sort_by.
  assert (Hk : with_keys key l = ok (map (fun x => (f x, x)) l)).
  { induction H as [| x l Hx _ IH]; [reflexivity |].
    simpl. rewrite Hx. simpl. rewrite IH. reflexivity. }
  rewrite Hk. reflexivity.
Qed.

End SortFacts.

(** ** Result normalizer: what the loops compute *)

Section LoopSpecs.

Variable P : platform.
Variables latitude longitude : float.

Lemma veterinary_loop_spec (els : list element) :
  forall records,
    veterinary_loop P latitude longitude els records
    = rbind (candidates P latitude longitude els) (fun cs =>
      ok (records ++ map record_of cs)).
Proof.
  induction els as [| el rest IH]; intros records; simpl.
  - rewrite app_nil_r. reflexivity.
  - unfold candidate_of. destruct (_extract_center el) as [[plat plon] |].
    + destruct (rounded_distance P latitude longitude plat plon) as [e | dist];
        simpl; [reflexivity |].
      rewrite IH.
      destruct (candidates P latitude longitude rest) as [e | cs]; simpl;
        [reflexivity |].
      rewrite <- app_assoc. reflexivity.
    + apply IH.
Qed.

Lemma food_loop_spec (els : list element) :
  forall seen records,
    food_loop P latitude longitude els seen records
    = rbind (candidates P latitude longitude els) (fun cs =>
      ok (records ++ map record_of (first_occurrences seen cs))).
Proof.
  induction els as [| el rest IH]; intros seen records; simpl.
  - rewrite app_nil_r. reflexivity.
  - unfold candidate_of. destruct (_extract_center el) as [[plat plon] |].
    + destruct (rounded_distance P latitude longitude plat plon) as [e | dist];
        simpl; [reflexivity |].
      rewrite !IH.
      destruct (candidates P latitude longitude rest) as [e | cs]; simpl.
      * destruct (bool_decide _); reflexivity.
      * unfold cand_key. cbn [cand_name cand_address].
        destruct (bool_decide _); [reflexivity |].
        rewrite <- app_assoc. reflexivity.
    + apply IH.
Qed.

End LoopSpecs.

(** ** Output records *)

Lemma record_of_distance_key (c : candidate) :
  distance_key (record_of c) = ok (cand_dist c).
Proof. reflexivity. Qed.

Lemma record_of_distance (c : candidate) : distance_of (record_of c) = cand_dist c.
Proof. reflexivity. Qed.

Lemma record_of_name_address (c : candidate) :
  name_address (record_of c)
  = (Some (of_opt_str (cand_name c)), Some (of_opt_str (cand_address c))).
Proof. reflexivity. Qed.

Lemma output_record_well_formed (name address : option string) (distance_m : Z) :
  well_formed_record (_to_output_record name address distance_m).
Proof.
  split; [| reflexivity].
  unfold _to_output_record, four_keys.
  rewrite !dom_insert_L, dom_empty_L. set_solver.
Qed.

Lemma records_well_formed (cs : list candidate) :
  Forall well_formed_record (map record_of cs).
Proof.
  apply Forall_map, Forall_forall. intros [name address dist] _.
  exact (output_record_well_formed name address dist).
Qed.

Lemma records_sortable (cs : list candidate) :
  Forall (fun r => distance_key r = ok (distance_of r)) (map record_of cs).
Proof.
  apply Forall_map, Forall_forall. intros c _. reflexivity.
Qed.

(** Sorting and slicing records built by [_to_output_record] never raises. *)
Lemma sort_and_truncate_records (cs : list candidate) (top_n : Z) :
  sort_and_truncate (map record_of cs) top_n
  = ok (firstn (Z.to_nat (Z.max 0 top_n)) (sort_by distance_of (map record_of cs))).
Proof.
  unfold sort_and_truncate.
  rewrite (py_sort_total distance_of) by apply records_sortable.
  reflexivity.
Qed.

(** ** The searches, stage by stage *)

Section SearchFacts.

Variable P : platform.
Variable net : network.

(** The result of a search, once the transport has answered and every
    distance has been computed. *)
Lemma category_search_returns (cat : category) (latitude longitude : float)
    (radius_m top_n : Z) (url ua : string) (w w1 : world)
    (data : overpass_data) (cs : list candidate) :
  _overpass_post net (category_query P cat radius_m latitude longitude)
    url ua 45 6 w = (inr data, w1) ->
  candidates P latitude longitude (elements_of data) = ok cs ->
  category_search P net cat latitude longitude radius_m top_n url ua w
  = (inr (firstn (Z.to_nat (Z.max 0 top_n))
            (sort_by distance_of (map record_of (category_keeps cat cs)))),
     w1).
Proof.
  intros Hpost Hcs.
  destruct cat as [| strict]; simpl in *;
    unfold search_nearby_veterinary, search_nearby_pet_friendly_food, bind, lift;
    rewrite Hpost.
  - rewrite veterinary_loop_spec, Hcs. simpl.
    rewrite sort_and_truncate_records. reflexivity.
  - rewrite food_loop_spec, Hcs. simpl.
    rewrite sort_and_truncate_records. reflexivity.
Qed.

(** Conversely, a search that returns went through these stages. *)
Lemma category_search_inv (cat : category) (latitude longitude : float)
    (radius_m top_n : Z) (url ua : string) (w w1 : world) (out : list record) :
  category_search P net cat latitude longitude radius_m top_n url ua w
  = (inr out, w1) ->
  exists data cs,
    _overpass_post net (category_query P cat radius_m latitude longitude)
      url ua 45 6 w = (inr data, w1)
    /\ candidates P latitude longitude (elements_of data) = ok cs
    /\ out = firstn (Z.to_nat (Z.max 0 top_n))
               (sort_by distance_of (map record_of (category_keeps cat cs))).
Proof.
  intros Hret.
  destruct (_overpass_post net (category_query P cat radius_m latitude longitude)
              url ua 45 6 w) as [[e | data] w'] eqn:Hpost.
  - destruct cat; simpl in *;
      unfold search_nearby_veterinary, search_nearby_pet_friendly_food, bind in Hret;
      rewrite Hpost in Hret; discriminate Hret.
  - destruct (candidates P latitude longitude (elements_of data)) as [e | cs] eqn:Hcs.
    + destruct cat; simpl in *;
        unfold search_nearby_veterinary, search_nearby_pet_friendly_food,
          bind, lift in Hret;
        rewrite Hpost in Hret;
        rewrite ?veterinary_loop_spec, ?food_loop_spec, Hcs in Hret;
        discriminate Hret.
    + rewrite (category_search_returns cat _ _ _ _ _ _ _ _ _ _ Hpost Hcs) in Hret.
      injection Hret as <- <-. exists data, cs. auto.
Qed.

End SearchFacts.

(** ** Sorting and truncation of search results *)

Lemma demo_candidates_ok :
  candidates toy_platform F64.zero F64.zero (elements_of demo_data)
  = ok demo_candidates.
Proof. vm_compute. reflexivity. Qed.

Lemma demo_post_ok (cat : category) :
  demo_post cat w0 = (inr demo_data, snd (demo_post cat w0)).
Proof. destruct cat as [| []]; reflexivity. Qed.

(** C5: once the transport has answered and the distances are computed,
    both searches return the records sorted by non-decreasing
    [distance_m] and cut to the first [max(0, top_n)]; with [top_n = 0]
    the result is empty. *)
Theorem search_sorts_then_truncates
    (P : platform) (net : network) (cat : category)
    (latitude longitude : float) (radius_m top_n : Z) (url ua : string)
    (w w1 : world) (data : overpass_data) (cs : list candidate) :
  _overpass_post net (category_query P cat radius_m latitude longitude)
    url ua 45 6 w = (inr data, w1) ->
  candidates P latitude longitude (elements_of data) = ok cs ->
  exists sorted,
    Permutation sorted (map record_of (category_keeps cat cs))
    /\ Sorted by_distance sorted
    /\ category_search P net cat latitude longitude radius_m top_n url ua w
       = (inr (firstn (Z.to_nat (Z.max 0 top_n)) sorted), w1)
    /\ Sorted by_distance (firstn (Z.to_nat (Z.max 0 top_n)) sorted)
    /\ (top_n = 0 ->
        category_search P net cat latitude longitude radius_m top_n url ua w
        = (inr [], w1)).
Proof.
  intros Hpost Hcs.
  exists (sort_by distance_of (map record_of (category_keeps cat cs))).
  pose proof (category_search_returns P net cat latitude longitude radius_m
                top_n url ua w w1 data cs Hpost Hcs) as Hret.
  split; [apply sort_by_perm |].
  split; [apply (sort_by_sorted distance_of) |].
  split; [exact Hret |].
  split; [apply Sorted_firstn, (sort_by_sorted distance_of) |].
  intros ->. exact Hret.
Qed.

Lemma search_sorts_then_truncates_witness :
  exists sorted,
    Permutation sorted
      (map record_of (category_keeps (PetFriendlyFood true) demo_candidates))
    /\ Sorted by_distance sorted
    /\ demo_search (PetFriendlyFood true) 1 w0
       = (inr (firstn (Z.to_nat (Z.max 0 1)) sorted),
          snd (demo_post (PetFriendlyFood true) w0))
    /\ Sorted by_distance (firstn (Z.to_nat (Z.max 0 1)) sorted)
    /\ (1 = 0 ->
        demo_search (PetFriendlyFood true) 1 w0
        = (inr [], snd (demo_post (PetFriendlyFood true) w0))).
Proof.
  exact (search_sorts_then_truncates toy_platform net_demo (PetFriendlyFood true)
           F64.zero F64.zero 1500 1 DEFAULT_OVERPASS_URL DEFAULT_USER_AGENT
           w0 _ demo_data demo_candidates
           (demo_post_ok (PetFriendlyFood true)) demo_candidates_ok).
Defined.

(** ** Every entry point *)

Section EntryPoints.

Variable P : platform.
Variable net : network.

(** Every entry point either raises before any request or is one of
    the two category searches. *)
Lemma run_search_cases (c : search_call) :
  (exists e, run_search P net c = raise e)
  \/ (exists cat lat lon radius_m top_n url ua,
        run_search P net c
        = category_search P net cat lat lon radius_m top_n url ua).
Proof.
  destruct c as [lat lon radius_m top_n url ua
                | lat lon radius_m top_n strict url ua
                | lat lon radius_m top_n mode kw
                | api_key lat lon radius language top_n kw]; simpl.
  - right. exists Veterinary. repeat eexists.
  - right. exists (PetFriendlyFood strict). repeat eexists.
  - unfold search_nearby, call_veterinary, call_pet_friendly_food.
    destruct (String.eqb _ "veterinary").
    + destruct (kw_strict kw); [left; eauto |].
      right. exists Veterinary. repeat eexists.
    + destruct (_ || _).
      * right. exists (PetFriendlyFood (default true (kw_strict kw))).
        repeat eexists.
      * left. eauto.
  - unfold search_nearby_veterinary_legacy, call_veterinary.
    destruct (kw_strict kw); [left; eauto |].
    right. exists Veterinary. repeat eexists.
Qed.

Lemma category_search_well_formed (cat : category) (lat lon : float)
    (radius_m top_n : Z) (url ua : string) (w w1 : world) (out : list record) :
  category_search P net cat lat lon radius_m top_n url ua w = (inr out, w1) ->
  Forall well_formed_record out.
Proof.
  intros Hret.
  destruct (category_search_inv P net cat lat lon radius_m top_n url ua
              w w1 out Hret) as (data & cs & _ & _ & ->).
  apply Forall_take.
  eapply Permutation_Forall; [symmetry; apply sort_by_perm |].
  apply records_well_formed.
Qed.

End EntryPoints.

(** C6: every record returned by any of the search functions has the
    keys name, address, rating and distance_m and no other, and its
    rating is None. *)
Theorem returned_records_have_four_keys
    (P : platform) (net : network) (c : search_call) (w w1 : world)
    (out : list record) :
  run_search P net c w = (inr out, w1) ->
  Forall (fun r => dom r = {[ "name"; "address"; "rating"; "distance_m" ]}
                   /\ r !! "rating" = Some PyNone) out.
Proof.
  intros Hret.
  destruct (run_search_cases P net c)
    as [[e He] | (cat & lat & lon & radius_m & top_n & url & ua & Hc)].
  - rewrite He in Hret. discriminate Hret.
  - rewrite Hc in Hret.
    exact (category_search_well_formed P net cat lat lon radius_m top_n url ua
             w w1 out Hret).
Qed.

Lemma returned_records_have_four_keys_witness :
  Forall (fun r => dom r = {[ "name"; "address"; "rating"; "distance_m" ]}
                   /\ r !! "rating" = Some PyNone)
    [ _to_output_record (Some "Vet B") None 111195;
      _to_output_record (Some "Cafe A") None 222390 ].
Proof.
  apply (returned_records_have_four_keys toy_platform net_demo
           (CallNearby F64.zero F64.zero 1500 20 (Some " Food ") no_kwargs)
           w0 (snd (demo_post (PetFriendlyFood true) w0))).
  vm_compute. reflexivity.
Defined.

(** ** Deduplication in the food search *)

Lemma elem_of_map {A B} (f : A -> B) (l : list A) (y : B) :
  y ∈ map f l <-> exists x, y = f x /\ x ∈ l.
Proof.
  rewrite list_elem_of_In, in_map_iff. split.
  - intros (x & <- & Hx). exists x. rewrite list_elem_of_In. auto.
  - intros (x & -> & Hx). exists x. rewrite <- list_elem_of_In. auto.
Qed.

Lemma NoDup_map_transfer {A B C} (f : A -> B) (g : A -> C) (l : list A) :
  (forall x y, x ∈ l -> y ∈ l -> g x = g y -> f x = f y) ->
  NoDup (map f l) -> NoDup (map g l).
Proof.
  induction l as [| a l IH]; intros Hfg Hnd; simpl in *; [constructor |].
  apply NoDup_cons in Hnd as [Hnotin Hnd]. apply NoDup_cons. split.
  - intros Hin. apply Hnotin.
    apply elem_of_map in Hin as (x & Hgx & Hx).
    apply elem_of_map. exists x. split; [| exact Hx].
    apply Hfg; [left | right; exact Hx | exact Hgx].
  - apply IH; [| exact Hnd].
    intros x y Hx Hy. apply Hfg; right; assumption.
Qed.

Section FirstOccurrences.

Implicit Types (seen : gset (string * string)) (cs : list candidate).

Lemma first_occurrences_fresh cs :
  forall seen c, c ∈ first_occurrences seen cs -> cand_key c ∉ seen.
Proof.
  induction cs as [| c0 cs IH]; intros seen c Hc; simpl in Hc.
  - inversion Hc.
  - case_bool_decide as Hseen.
    + apply IH. exact Hc.
    + apply elem_of_cons in Hc as [-> | Hc]; [exact Hseen |].
      apply IH in Hc. intros Hin. apply Hc, elem_of_union_r. exact Hin.
Qed.

Lemma first_occurrences_NoDup cs :
  forall seen, NoDup (map cand_key (first_occurrences seen cs)).
Proof.
  induction cs as [| c0 cs IH]; intros seen; simpl; [constructor |].
  case_bool_decide as Hseen; [apply IH |].
  simpl. apply NoDup_cons. split; [| apply IH].
  intros Hin. apply elem_of_map in Hin as (c & Hkey & Hc).
  apply first_occurrences_fresh in Hc. apply Hc.
  rewrite <- Hkey. apply elem_of_union_l, elem_of_singleton. reflexivity.
Qed.

(** A kept candidate is the first of its key in the response. *)
Lemma first_occurrences_first cs :
  forall seen c,
    c ∈ first_occurrences seen cs ->
    exists i,
      cs !! i = Some c
      /\ forall j c', (j < i)%nat -> cs !! j = Some c' -> cand_key c' <> cand_key c.
Proof.
  induction cs as [| c0 cs IH]; intros seen c Hc; simpl in Hc.
  - inversion Hc.
  - case_bool_decide as Hseen.
    + pose proof (first_occurrences_fresh _ _ _ Hc) as Hfresh.
      destruct (IH _ _ Hc) as (i & Hi & Hbefore).
      exists (S i). split; [exact Hi |].
      intros [| j] c' Hj Hc'; simpl in Hc'.
      * injection Hc' as <-. intros Heq. rewrite Heq in Hseen. contradiction.
      * apply (Hbefore j); [lia | exact Hc'].
    + apply elem_of_cons in Hc as [-> | Hc].
      * exists 0%nat. split; [reflexivity |]. intros j c' Hj. lia.
      * pose proof (first_occurrences_fresh _ _ _ Hc) as Hfresh.
        destruct (IH _ _ Hc) as (i & Hi & Hbefore).
        exists (S i). split; [exact Hi |].
        intros [| j] c' Hj Hc'; simpl in Hc'.
        -- injection Hc' as <-. intros Heq. apply Hfresh.
           rewrite <- Heq. apply elem_of_union_l, elem_of_singleton. reflexivity.
        -- apply (Hbefore j); [lia | exact Hc'].
Qed.

(** Every key of the response is represented. *)
Lemma first_occurrences_complete cs :
  forall seen c,
    c ∈ cs ->
    cand_key c ∈ seen
    \/ exists c', c' ∈ first_occurrences seen cs /\ cand_key c' = cand_key c.
Proof.
  induction cs as [| c0 cs IH]; intros seen c Hc; [inversion Hc |].
  simpl. apply elem_of_cons in Hc as [-> | Hc].
  - case_bool_decide as Hseen; [left; exact Hseen |].
    right. exists c0. split; [left | reflexivity].
  - case_bool_decide as Hseen.
    + apply IH. exact Hc.
    + destruct (IH ({[cand_key c0]} ∪ seen) c Hc) as [Hin | (c' & Hc' & Hkey)].
      * apply elem_of_union in Hin as [Hin | Hin]; [| left; exact Hin].
        apply elem_of_singleton in Hin. right. exists c0.
        split; [left | symmetry; exact Hin].
      * right. exists c'. split; [right; exact Hc' | exact Hkey].
Qed.

Lemma first_occurrences_length cs :
  forall seen, (length (first_occurrences seen cs) <= length cs)%nat.
Proof.
  induction cs as [| c0 cs IH]; intros seen; simpl; [lia |].
  case_bool_decide; simpl; [specialize (IH seen) | specialize (IH ({[cand_key c0]} ∪ seen))]; lia.
Qed.

End FirstOccurrences.

Lemma or_none_nonempty (s : string) : PyStr.or_none s <> Some EmptyString.
Proof. destruct s; simpl; discriminate. Qed.

Lemma get_truthy_nonempty (d : gmap string string) (k : string) :
  PyStr.get_truthy d k <> Some EmptyString.
Proof.
  unfold PyStr.get_truthy. destruct (d !! k); [apply or_none_nonempty | discriminate].
Qed.

Lemma build_address_nonempty (tags : gmap string string) :
  _build_address tags <> Some EmptyString.
Proof.
  unfold _build_address. case_bool_decide; [discriminate |].
  destruct (PyStr.get_truthy tags "addr:full"); apply or_none_nonempty.
Qed.

Lemma candidates_clean (P : platform) (lat lon : float) (els : list element) :
  forall cs, candidates P lat lon els = ok cs -> Forall clean cs.
Proof.
  induction els as [| el rest IH]; intros cs Hcs; simpl in Hcs.
  - injection Hcs as <-. constructor.
  - unfold candidate_of in Hcs.
    destruct (_extract_center el) as [[plat plon] |]; [| apply IH; exact Hcs].
    destruct (rounded_distance P lat lon plat plon) as [e | dist]; simpl in Hcs;
      [discriminate |].
    destruct (candidates P lat lon rest) as [e | cs']; simpl in Hcs; [discriminate |].
    injection Hcs as <-. constructor; [| apply IH; reflexivity].
    split; [apply get_truthy_nonempty | apply build_address_nonempty].
Qed.

Lemma clean_key_pair (c c' : candidate) :
  clean c -> clean c' ->
  (cand_key c = cand_key c'
   <-> name_address (record_of c) = name_address (record_of c')).
Proof.
  intros [Hn Ha] [Hn' Ha']. rewrite !record_of_name_address.
  unfold cand_key, dedup_key.
  destruct c as [n a d], c' as [n' a' d']; simpl in *.
  split.
  - intros [= Hname Haddr].
    destruct n as [[|]|], n' as [[|]|], a as [[|]|], a' as [[|]|];
      simpl in *; congruence.
  - intros [= Hname Haddr].
    destruct n, n', a, a'; simpl in *; congruence.
Qed.

Lemma first_occurrences_sub (cs : list candidate) (c : candidate) :
  c ∈ first_occurrences ∅ cs -> c ∈ cs.
Proof.
  intros Hc. destruct (first_occurrences_first cs ∅ c Hc) as (i & Hi & _).
  eapply list_elem_of_lookup_2. exact Hi.
Qed.

Lemma kept_records_NoDup (cs : list candidate) :
  Forall clean cs ->
  NoDup (map name_address (map record_of (first_occurrences ∅ cs))).
Proof.
  intros Hclean. rewrite map_map.
  apply (NoDup_map_transfer cand_key); [| apply first_occurrences_NoDup].
  rewrite Forall_forall in Hclean.
  intros x y Hx Hy Heq. apply clean_key_pair; [| | exact Heq];
    apply Hclean, first_occurrences_sub; assumption.
Qed.

(** C4: in the food search, in either strict mode, the elements that
    have coordinates are taken in response order with their name,
    address and distance ([cs]). No two returned records share a
    (name, address) pair; every returned record is the record of the
    first element of its pair, no element before it has the same pair;
    and when [top_n] does not cut the list, every pair of the response
    is returned once. *)
Theorem food_search_keeps_first_of_each_pair
    (P : platform) (net : network) (latitude longitude : float)
    (radius_m top_n : Z) (strict : bool) (url ua : string)
    (w w1 : world) (data : overpass_data) (cs : list candidate) :
  _overpass_post net (food_query P strict radius_m latitude longitude)
    url ua 45 6 w = (inr data, w1) ->
  candidates P latitude longitude (elements_of data) = ok cs ->
  exists out,
    search_nearby_pet_friendly_food P net latitude longitude radius_m top_n
      strict url ua w = (inr out, w1)
    /\ NoDup (map name_address out)
    /\ (forall r, r ∈ out ->
        exists i c,
          cs !! i = Some c /\ r = record_of c
          /\ forall j c', (j < i)%nat -> cs !! j = Some c' ->
               name_address (record_of c') <> name_address r)
    /\ (Z.of_nat (length cs) <= top_n ->
        forall c, c ∈ cs ->
          exists r, r ∈ out /\ name_address r = name_address (record_of c)).
Proof.
  intros Hpost Hcs.
  pose proof (category_search_returns P net (PetFriendlyFood strict)
                latitude longitude radius_m top_n url ua w w1 data cs
                Hpost Hcs) as Hret.
  cbn [category_search category_keeps] in Hret.
  pose proof (candidates_clean P latitude longitude _ cs Hcs) as Hclean.
  set (kept := map record_of (first_occurrences ∅ cs)) in *.
  pose proof (sort_by_perm distance_of kept) as Hperm.
  eexists. split; [exact Hret |].
  split; [| split].
  - rewrite <- firstn_map.
    eapply sublist_NoDup; [| apply sublist_take].
    rewrite (Permutation_map name_address Hperm).
    apply kept_records_NoDup. exact Hclean.
  - intros r Hr.
    apply elem_of_take in Hr as (k & Hk & _).
    apply list_elem_of_lookup_2 in Hk.
    rewrite Hperm in Hk. apply elem_of_map in Hk as (c & -> & Hc).
    destruct (first_occurrences_first cs ∅ c Hc) as (i & Hi & Hbefore).
    exists i, c. split; [exact Hi |]. split; [reflexivity |].
    intros j c' Hj Hc' Heq.
    apply (Hbefore j c' Hj Hc').
    rewrite Forall_forall in Hclean.
    apply clean_key_pair; [| | exact Heq];
      apply Hclean; eapply list_elem_of_lookup_2; eassumption.
  - intros Hlen c Hc.
    rewrite firstn_all2.
    + destruct (first_occurrences_complete cs ∅ c Hc) as [Hin | (c' & Hc' & Hkey)];
        [set_solver |].
      exists (record_of c'). split.
      * rewrite Hperm. apply elem_of_map. exists c'. auto.
      * rewrite Forall_forall in Hclean.
        apply clean_key_pair; [| | exact Hkey];
          apply Hclean; [apply first_occurrences_sub |]; assumption.
    + rewrite (Permutation_length Hperm). unfold kept. rewrite length_map.
      pose proof (first_occurrences_length cs ∅). lia.
Qed.

Lemma food_search_keeps_first_of_each_pair_witness :
  exists out,
    search_nearby_pet_friendly_food toy_platform net_demo F64.zero F64.zero
      1500 20 true DEFAULT_OVERPASS_URL DEFAULT_USER_AGENT w0
    = (inr out, snd (demo_post (PetFriendlyFood true) w0))
    /\ NoDup (map name_address out)
    /\ (forall r, r ∈ out ->
        exists i c,
          demo_candidates !! i = Some c /\ r = record_of c
          /\ forall j c', (j < i)%nat -> demo_candidates !! j = Some c' ->
               name_address (record_of c') <> name_address r)
    /\ (Z.of_nat (length demo_candidates) <= 20 ->
        forall c, c ∈ demo_candidates ->
          exists r, r ∈ out /\ name_address r = name_address (record_of c)).
Proof.
  exact (food_search_keeps_first_of_each_pair toy_platform net_demo
           F64.zero F64.zero 1500 20 true DEFAULT_OVERPASS_URL DEFAULT_USER_AGENT
           w0 _ demo_data demo_candidates
           (demo_post_ok (PetFriendlyFood true)) demo_candidates_ok).
Defined.

(** The demo response in the food search: the second Cafe A is dropped
    and the first one, though further than Vet B, is the one kept. *)
Example food_search_demo :
  fst (demo_search (PetFriendlyFood true) 20 w0)
  = inr [ _to_output_record (Some "Vet B") None 111195;
          _to_output_record (Some "Cafe A") None 222390 ].
Proof. vm_compute. reflexivity. Qed.

Example veterinary_search_demo :
  fst (demo_search Veterinary 2 w0)
  = inr [ _to_output_record (Some "Vet B") None 111195;
          _to_output_record (Some "Cafe A") None 222390 ].
Proof. vm_compute. reflexivity. Qed.

(** ** Binary64 arithmetic facts *)

Section Binary64.

Lemma digits2_pos_size (p : positive) : digits2_pos p = Pos.size p.
Proof. induction p as [p IH | p IH |]; simpl; congruence. Qed.

Lemma pos_lt_pow_digits (p : positive) : Zpos p < 2 ^ Zpos (digits2_pos p).
Proof.
  rewrite digits2_pos_size.
  pose proof (Pos.size_gt p) as H.
  apply Pos2Z.pos_lt_pos in H. rewrite Pos2Z.inj_pow in H. exact H.
Qed.

Lemma pow_digits_le_double (p : positive) : 2 ^ Zpos (digits2_pos p) <= 2 * Zpos p.
Proof.
  rewrite digits2_pos_size.
  pose proof (Pos.size_le p) as H.
  apply Pos2Z.pos_le_pos in H. rewrite Pos2Z.inj_pow in H. exact H.
Qed.

Lemma Zdigits2_bound (m k : Z) : 0 <= m < 2 ^ k -> 0 <= k -> Zdigits2 m <= k.
Proof.
  intros [Hm0 Hmk] Hk. destruct m as [| p | p]; simpl; [lia | | lia].
  pose proof (pow_digits_le_double p) as Hle.
  assert (Hlt : 2 ^ Zpos (digits2_pos p) < 2 ^ (k + 1)).
  { replace (k + 1) with (Z.succ k) by lia. rewrite Z.pow_succ_r by lia. lia. }
  apply Z.pow_lt_mono_r_iff in Hlt; lia.
Qed.

Lemma Zdigits2_nonneg (m : Z) : 0 <= Zdigits2 m.
Proof. destruct m; simpl; lia. Qed.

(** A valid binary64 has a mantissa below [2^53]. *)
Lemma bounded_mantissa (m : positive) (e : Z) :
  bounded F64.prec F64.emax m e = true -> Zpos m < 2 ^ 53 /\ e <= 971.
Proof.
  unfold bounded, canonical_mantissa, fexp, emin, F64.prec, F64.emax.
  intros H. apply andb_true_iff in H as [Hc He].
  apply Z.eqb_eq in Hc. apply Z.leb_le in He.
  split; [| lia].
  pose proof (pos_lt_pow_digits m) as Hlt.
  assert (Hd : Zpos (digits2_pos m) <= 53) by lia.
  eapply Z.lt_le_trans; [exact Hlt |].
  apply Z.pow_le_mono_r; lia.
Qed.

Lemma shr_1_bounds (mrs : shr_record) :
  0 <= shr_m mrs -> 0 <= shr_m (shr_1 mrs) <= shr_m mrs.
Proof.
  destruct mrs as [m r s]. destruct m as [| p | p]; simpl; [lia | | lia].
  destruct p; simpl; lia.
Qed.

Lemma iter_shr_1_bounds (p : positive) :
  forall mrs, 0 <= shr_m mrs -> 0 <= shr_m (SpecFloat.iter_pos shr_1 p mrs) <= shr_m mrs.
Proof.
  induction p as [p IH | p IH |]; intros mrs H; simpl.
  - pose proof (shr_1_bounds mrs H) as H1.
    pose proof (IH _ (proj1 H1)) as H2.
    pose proof (IH _ (proj1 H2)) as H3. lia.
  - pose proof (IH _ H) as H2.
    pose proof (IH _ (proj1 H2)) as H3. lia.
  - apply shr_1_bounds. exact H.
Qed.

Lemma shr_bounds (mrs : shr_record) (e n : Z) :
  0 <= shr_m mrs ->
  0 <= shr_m (fst (shr mrs e n)) <= shr_m mrs
  /\ snd (shr mrs e n) = e + Z.max 0 n.
Proof.
  intros H. destruct n as [| p | p]; simpl; try (split; lia).
  split; [apply iter_shr_1_bounds; exact H | lia].
Qed.

Lemma shr_record_of_loc_m (m : Z) (l : location) : shr_m (shr_record_of_loc m l) = m.
Proof. destruct l as [| []]; reflexivity. Qed.

Lemma shr_fexp_bounds (m e : Z) (l : location) :
  0 <= m ->
  0 <= shr_m (fst (shr_fexp F64.prec F64.emax m e l)) <= m
  /\ snd (shr_fexp F64.prec F64.emax m e l)
     = Z.max e (fexp F64.prec F64.emax (Zdigits2 m + e)).
Proof.
  intros H. unfold shr_fexp.
  destruct (shr_bounds (shr_record_of_loc m l) e
              (fexp F64.prec F64.emax (Zdigits2 m + e) - e)) as [Hm He].
  - rewrite shr_record_of_loc_m. exact H.
  - rewrite shr_record_of_loc_m in Hm. split; [exact Hm |].
    rewrite He. lia.
Qed.

Lemma round_nearest_even_bounds (m : Z) (l : location) :
  0 <= m -> 0 <= round_nearest_even m l <= m + 1.
Proof.
  intros H. destruct l as [| []]; simpl; try lia.
  destruct (Z.even m); lia.
Qed.

(** Rounding a mantissa below [2^106] at an exponent of at most 864
    does not overflow. *)
Lemma binary_round_aux_finite (sx : bool) (m e : Z) (l : location) :
  0 <= m < 2 ^ 106 -> e <= 864 ->
  F64.is_finite (binary_round_aux F64.prec F64.emax sx m e l) = true.
Proof.
  intros [Hm0 Hm] He. unfold binary_round_aux.
  destruct (shr_fexp_bounds m e l Hm0) as [Hm1 He1].
  destruct (shr_fexp F64.prec F64.emax m e l) as [mrs1 e1]. simpl in Hm1, He1.
  set (m2 := round_nearest_even (shr_m mrs1) (loc_of_shr_record mrs1)).
  pose proof (round_nearest_even_bounds (shr_m mrs1) (loc_of_shr_record mrs1)
                (proj1 Hm1)) as Hm2. fold m2 in Hm2.
  destruct (shr_fexp_bounds m2 e1 loc_Exact (proj1 Hm2)) as [Hm3 He3].
  destruct (shr_fexp F64.prec F64.emax m2 e1 loc_Exact) as [mrs3 e3].
  simpl in Hm3, He3.
  pose proof (Zdigits2_bound m 106 (conj Hm0 Hm) ltac:(lia)) as Hd.
  pose proof (Zdigits2_nonneg m) as Hd0.
  assert (Hm2' : 0 <= m2 < 2 ^ 107).
  { change (2 ^ 107) with (2 * 2 ^ 106). lia. }
  pose proof (Zdigits2_bound m2 107 Hm2' ltac:(lia)) as Hd2.
  unfold fexp, emin, F64.prec, F64.emax in *.
  destruct (shr_m mrs3) as [| p | p]; [reflexivity | | lia].
  assert (Hle : (e3 <=? 1024 - 53) = true) by (apply Z.leb_le; lia).
  rewrite Hle. reflexivity.
Qed.

Lemma mul_finite (sx sy : bool) (mx my : positive) (ex ey : Z) :
  Zpos mx < 2 ^ 53 -> Zpos my < 2 ^ 53 -> ex + ey <= 864 ->
  F64.is_finite (F64.mul (S754_finite sx mx ex) (S754_finite sy my ey)) = true.
Proof.
  intros Hx Hy He. unfold F64.mul, SFmul.
  apply binary_round_aux_finite; [| exact He].
  rewrite Pos2Z.inj_mul. split; [lia |].
  change (2 ^ 106) with (2 ^ 53 * 2 ^ 53). nia.
Qed.

End Binary64.

(** ** The distance from a point to itself *)

Section SelfDistance.

Lemma small_finite (b : Z) (x : float) : small b x -> F64.is_finite x = true.
Proof. destruct x; simpl; intros H; (reflexivity || contradiction). Qed.

Lemma mul_small (bx by_ : Z) (x y : float) :
  small bx x -> small by_ y -> bx + by_ <= 864 ->
  F64.is_finite (F64.mul x y) = true.
Proof.
  destruct x as [sx | sx | | sx mx ex], y as [sy | sy | | sy my ey];
    simpl; try contradiction; try reflexivity.
  intros [Hx Hex] [Hy Hey] Hb. apply mul_finite; lia.
Qed.

Lemma mul_finite_zero (x : float) :
  F64.is_finite x = true -> exists s, F64.mul x F64.zero = S754_zero s.
Proof.
  destruct x as [sx | sx | | sx mx ex]; simpl; try discriminate; intros _;
    eexists; reflexivity.
Qed.

Lemma add_zero_zero (s : bool) : F64.add F64.zero (S754_zero s) = F64.zero.
Proof. destruct s; reflexivity. Qed.

Lemma sub_self (x : float) : F64.is_finite x = true -> F64.sub x x = F64.zero.
Proof.
  destruct x as [s | s | | s m e]; simpl; try discriminate; intros _.
  - destruct s; reflexivity.
  - unfold F64.sub, SFsub. rewrite Z.sub_diag. reflexivity.
Qed.

(** A valid binary64 between [-b] and [b], for [b] a positive finite
    binary64 of exponent [eb], is small. *)
Lemma between_small (x : float) (mb : positive) (eb : Z) :
  F64.valid x = true ->
  F64.leb (S754_finite true mb eb) x = true ->
  F64.leb x (S754_finite false mb eb) = true ->
  small eb x.
Proof.
  unfold F64.valid, F64.leb, SFleb.
  destruct x as [s | s | | s m e]; simpl.
  - trivial.
  - destruct s; discriminate.
  - discriminate.
  - intros Hv Hlo Hhi. apply bounded_mantissa in Hv as [Hm _].
    split; [exact Hm |].
    destruct s.
    + clear Hhi. destruct (Z.compare_spec eb e); [lia | discriminate | lia].
    + clear Hlo. destruct (Z.compare_spec e eb); [lia | lia | discriminate].
Qed.

Lemma abs_le_small (x : float) (mb : positive) (eb : Z) :
  F64.valid x = true ->
  F64.leb (SFabs x) (S754_finite false mb eb) = true ->
  small eb x.
Proof.
  unfold F64.valid, F64.leb, SFleb.
  destruct x as [s | s | | s m e]; simpl; try discriminate; [trivial |].
  intros Hv Hle. apply bounded_mantissa in Hv as [Hm _].
  split; [exact Hm |].
  destruct (Z.compare_spec e eb); [lia | lia | discriminate].
Qed.

Lemma valid_latlon_small (lat lon : float) :
  valid_latlon lat lon = true -> small (-46) lat /\ small (-45) lon.
Proof.
  unfold valid_latlon. rewrite !andb_true_iff.
  intros [[[[[Hvlat Hvlon] Hlat1] Hlat2] Hlon1] Hlon2].
  split;
    [apply (between_small lat 6333186975989760 (-46))
    | apply (between_small lon 6333186975989760 (-45))]; assumption.
Qed.

Variable P : platform.
Hypothesis libm : libm_conforms P.

Lemma sin_of_zero : PyMath.sin P F64.zero = ok F64.zero.
Proof. unfold PyMath.sin, PyMath.math_1. rewrite (sin_zero P libm). reflexivity. Qed.

Lemma asin_of_zero : PyMath.asin P F64.zero = ok F64.zero.
Proof. unfold PyMath.asin, PyMath.math_1. rewrite (asin_zero P libm). reflexivity. Qed.

Lemma cos_of_finite (x : float) :
  F64.is_finite x = true ->
  PyMath.cos P x = ok (c_cos P x) /\ small (-52) (c_cos P x).
Proof.
  intros Hx. destruct (cos_range P libm x Hx) as [Hv Hle].
  assert (Hs : small (-52) (c_cos P x)).
  { apply (abs_le_small _ 4503599627370496 (-52)); assumption. }
  split; [| exact Hs].
  unfold PyMath.cos, PyMath.math_1.
  destruct (c_cos P x); simpl in Hs; try contradiction; reflexivity.
Qed.

Lemma radians_finite (lat : float) :
  small (-46) lat -> F64.is_finite (PyMath.radians lat) = true.
Proof.
  intros H. unfold PyMath.radians.
  apply (mul_small (-46) (-58)); [exact H | | lia].
  simpl. split; [reflexivity | lia].
Qed.

Lemma haversine_self (lat lon : float) :
  valid_latlon lat lon = true ->
  _haversine_m P lat lon lat lon = ok F64.zero.
Proof.
  intros Hvalid.
  destruct (valid_latlon_small lat lon Hvalid) as [Hlat Hlon].
  unfold _haversine_m.
  rewrite !sub_self by (eapply small_finite; eassumption).
  change (F64.div (PyMath.radians F64.zero) F64.two) with F64.zero.
  rewrite sin_of_zero. cbn [rbind ok]. 
  change (PyMath.pow2 P F64.zero) with (ok F64.zero). cbn [rbind ok].
  destruct (cos_of_finite (PyMath.radians lat) (radians_finite lat Hlat))
    as [Hcos Hsmall].
  rewrite Hcos. cbn [rbind ok].
  assert (Hfin : F64.is_finite (F64.mul (c_cos P (PyMath.radians lat))
                                  (c_cos P (PyMath.radians lat))) = true).
  { apply (mul_small (-52) (-52)); [exact Hsmall | exact Hsmall | lia]. }
  destruct (mul_finite_zero _ Hfin) as [s Hs].
  rewrite Hs, add_zero_zero.
  change (PyMath.sqrt F64.zero) with (ok F64.zero). cbn [rbind ok].
  rewrite asin_of_zero. reflexivity.
Qed.

End SelfDistance.

(** C8: for every valid latitude/longitude pair the distance from the
    point to itself is exactly zero: the function returns the float +0,
    which compares equal to 0. The C library is assumed to follow the
    standard at zero and to keep [cos] within [-1, 1]. *)
Theorem haversine_same_point_is_zero (P : platform) (lat lon : float) :
  libm_conforms P ->
  valid_latlon lat lon = true ->
  exists d,
    _haversine_m P lat lon lat lon = ok d
    /\ F64.eqb d (F64.of_Z 0) = true.
Proof.
  intros Hlibm Hvalid. exists F64.zero.
  split; [apply haversine_self; assumption | reflexivity].
Qed.

Lemma toy_platform_conforms : libm_conforms toy_platform.
Proof.
  constructor; [reflexivity | reflexivity |].
  intros x _. split; reflexivity.
Defined.

Lemma haversine_same_point_is_zero_witness :
  exists d,
    _haversine_m toy_platform (F64.of_Z 25) (F64.of_Z 121) (F64.of_Z 25) (F64.of_Z 121)
    = ok d
    /\ F64.eqb d (F64.of_Z 0) = true.
Proof.
  apply (haversine_same_point_is_zero toy_platform (F64.of_Z 25) (F64.of_Z 121)).
  - exact toy_platform_conforms.
  - reflexivity.
Defined.

(** Without a valid pair the property fails: NaN is not at distance
    zero from itself. *)
Example haversine_nan :
  _haversine_m toy_platform S754_nan F64.zero S754_nan F64.zero = ok S754_nan.
Proof. reflexivity. Qed.

(** ** The unified entry point and the legacy adapter *)

(** C7: for every mode that is not recognized, [search_nearby] raises
    [ValueError] at once: the world is left as it was, so no request was
    sent and nothing was slept. *)
Theorem search_nearby_rejects_unrecognized_mode
    (P : platform) (net : network) (latitude longitude : float)
    (radius_m top_n : Z) (mode : option string) (kw : kwargs) (w : world) :
  recognized_mode mode = false ->
  search_nearby P net latitude longitude radius_m top_n mode kw w
  = (inl mode_error, w).
Proof.
  unfold recognized_mode, search_nearby. intros H.
  apply orb_false_iff in H as [H Hfood].
  apply orb_false_iff in H as [H Hpet].
  apply orb_false_iff in H as [Hvet Hpff].
  rewrite Hvet, Hpff, Hpet, Hfood. reflexivity.
Qed.

Lemma search_nearby_rejects_unrecognized_mode_witness :
  search_nearby toy_platform net_demo F64.zero F64.zero 1500 20
    (Some "invalid") no_kwargs w0
  = (inl mode_error, w0).
Proof.
  exact (search_nearby_rejects_unrecognized_mode toy_platform net_demo
           F64.zero F64.zero 1500 20 (Some "invalid") no_kwargs w0 eq_refl).
Defined.

(** C9: the legacy adapter, whatever [api_key] and [language] it is
    given, is the veterinary search called with [radius_m = radius] and
    the same [top_n] and keyword arguments: same result, same requests,
    same sleeps. Without further keywords that is
    [search_nearby_veterinary] on the default endpoint. *)
Theorem legacy_adapter_is_veterinary_search
    (P : platform) (net : network) (api_key : string)
    (latitude longitude : float) (radius : Z) (language : option string)
    (top_n : Z) (kw : kwargs) :
  search_nearby_veterinary_legacy P net api_key latitude longitude radius
    language top_n kw
  = call_veterinary P net latitude longitude radius top_n kw
  /\ search_nearby_veterinary_legacy P net api_key latitude longitude radius
       language top_n no_kwargs
     = search_nearby_veterinary P net latitude longitude radius top_n
         DEFAULT_OVERPASS_URL DEFAULT_USER_AGENT
  /\ forall api_key' language',
       search_nearby_veterinary_legacy P net api_key' latitude longitude radius
         language' top_n kw
       = search_nearby_veterinary_legacy P net api_key latitude longitude radius
           language top_n kw.
Proof. repeat split. Qed.

(** C10: the mode is stripped of surrounding whitespace and lowercased
    before it is matched; a mode that then reads pet_friendly_food,
    pet_food or food runs the pet-friendly-food search; a missing or
    empty mode raises [ValueError]. *)
Theorem search_nearby_normalizes_mode_and_accepts_aliases
    (P : platform) (net : network) (latitude longitude : float)
    (radius_m top_n : Z) (kw : kwargs) (s : string) :
  In (PyStr.lower (PyStr.strip s)) ["pet_friendly_food"; "pet_food"; "food"] ->
  search_nearby P net latitude longitude radius_m top_n (Some s) kw
  = search_nearby_pet_friendly_food P net latitude longitude radius_m top_n
      (default true (kw_strict kw))
      (default DEFAULT_OVERPASS_URL (kw_overpass_url kw))
      (default DEFAULT_USER_AGENT (kw_user_agent kw))
  /\ search_nearby P net latitude longitude radius_m top_n None kw
     = raise mode_error
  /\ search_nearby P net latitude longitude radius_m top_n (Some EmptyString) kw
     = raise mode_error.
Proof.
  intros Hs. split; [| split; reflexivity].
  unfold search_nearby.
  change (normalize_mode (Some s)) with (PyStr.lower (PyStr.strip s)).
  destruct Hs as [<- | [<- | [<- | []]]]; reflexivity.
Qed.

Lemma search_nearby_normalizes_mode_and_accepts_aliases_witness :
  search_nearby toy_platform net_demo F64.zero F64.zero 1500 20
    (Some "  Pet_Food ") no_kwargs
  = search_nearby_pet_friendly_food toy_platform net_demo F64.zero F64.zero
      1500 20 true DEFAULT_OVERPASS_URL DEFAULT_USER_AGENT
  /\ search_nearby toy_platform net_demo F64.zero F64.zero 1500 20 None no_kwargs
     = raise mode_error
  /\ search_nearby toy_platform net_demo F64.zero F64.zero 1500 20
       (Some EmptyString) no_kwargs
     = raise mode_error.
Proof.
  apply (search_nearby_normalizes_mode_and_accepts_aliases toy_platform net_demo
           F64.zero F64.zero 1500 20 no_kwargs "  Pet_Food ").
  simpl. right. left. reflexivity.
Defined.

Example normalize_mode_examples :
  normalize_mode (Some " FOOD ") = "food"
  /\ normalize_mode (Some "Veterinary") = "veterinary"
  /\ normalize_mode None = EmptyString
  /\ recognized_mode (Some "pet food") = false.
Proof. repeat split. Qed.

(** * Further properties of the code *)

(** ** Transport client: every run *)

Section RunFacts.

Variable net : network.
Variable rq : request.

(** Either some attempt is the first to succeed, or all fail. *)
Lemma first_success_or_all_fail (n : nat) :
  forall start,
    (exists k d,
        (k < n)%nat
        /\ (forall j, (j < k)%nat -> post_fails (net (start + j)%nat rq) = true)
        /\ post_success (net (start + k)%nat rq) = Some d)
    \/ (forall j, (j < n)%nat -> post_fails (net (start + j)%nat rq) = true).
Proof.
  induction n as [| n IH]; intros start; [right; intros j Hj; lia |].
  destruct (post_fails_or_succeeds (net start rq)) as [Hf | [d Hs]].
  - destruct (IH (S start)) as [(k & d & Hk & Hfail & Hok) | Hall].
    + left. exists (S k), d. split; [lia |]. split.
      * intros [| j] Hj; [rewrite Nat.add_0_r; exact Hf |].
        replace (start + S j)%nat with (S start + j)%nat by lia.
        apply Hfail. lia.
      * replace (start + S k)%nat with (S start + k)%nat by lia. exact Hok.
    + right. intros [| j] Hj; [rewrite Nat.add_0_r; exact Hf |].
      replace (start + S j)%nat with (S start + j)%nat by lia.
      apply Hall. lia.
  - left. exists 0%nat, d. split; [lia |]. split; [intros j Hj; lia |].
    rewrite Nat.add_0_r. exact Hs.
Qed.

(** The three ways a run of the loop can end: an attempt succeeds; a
    budget of at most 33 runs out; or, in a larger budget, the 34th
    failure in a row meets a delay [time.sleep] refuses. *)
Lemma retry_loop_outcome (n : nat) (st : retry_state) (w : world) :
  backoff st = backoff_delay 0 ->
  (exists k d,
      (k < n)%nat
      /\ (k <= 33)%nat
      /\ (forall j, (j < k)%nat -> post_fails (net (w_posts w + j)%nat rq) = true)
      /\ post_success (net (w_posts w + k)%nat rq) = Some d
      /\ retry_loop net rq n st w
         = (inr d, World (w_posts w + S k)
                     (w_log w ++ failed_trace rq 0 k ++ [EvPost rq])))
  \/ ((n <= 33)%nat
      /\ (forall j, (j < n)%nat -> post_fails (net (w_posts w + j)%nat rq) = true)
      /\ retry_loop net rq n st w
         = (inl (Exn RuntimeError
                   ("Overpass request failed after retries: "
                      +:+ str_opt_exn
                            (remembered_error net rq (w_posts w) n (last_err st)))),
            World (w_posts w + n) (w_log w ++ failed_trace rq 0 n)))
  \/ ((34 <= n)%nat
      /\ (forall j, (j < 34)%nat -> post_fails (net (w_posts w + j)%nat rq) = true)
      /\ retry_loop net rq n st w
         = (inl sleep_refused,
            World (w_posts w + 34)
              (w_log w ++ failed_trace rq 0 33 ++ [EvPost rq]))).
Proof.
  intros Hb.
  destruct (first_success_or_all_fail (Nat.min n 34) (w_posts w))
    as [(k & d & Hk & Hfail & Hok) | Hall].
  - left. exists k, d. split; [lia |]. split; [lia |].
    repeat (split; [assumption |]).
    replace n with (k + S (n - S k))%nat at 1 by lia.
    rewrite (retry_loop_failures net rq k _ 0) by (try assumption; lia).
    rewrite (retry_loop_success _ _ _ _ _ d) by exact Hok.
    unfold after_post. cbn [w_posts w_log].
    rewrite <- app_assoc, Nat.add_succ_r. reflexivity.
  - destruct (Nat.le_gt_cases n 33) as [Hle | Hgt].
    + right. left. split; [exact Hle |].
      assert (Hall' : forall j, (j < n)%nat ->
                post_fails (net (w_posts w + j)%nat rq) = true).
      { intros j Hj. apply Hall. lia. }
      split; [exact Hall' |].
      apply retry_loop_exhausted; [assumption | lia | assumption].
    + right. right. split; [lia |].
      assert (Hall' : forall j, (j < 34)%nat ->
                post_fails (net (w_posts w + j)%nat rq) = true).
      { intros j Hj. apply Hall. lia. }
      split; [exact Hall' |].
      replace n with (34 + (n - 34))%nat at 1 by lia.
      apply retry_loop_overflow; assumption.
Qed.

End RunFacts.

Lemma total_sleep_app (l1 l2 : list event) :
  (total_sleep (l1 ++ l2) == total_sleep l1 + total_sleep l2)%Q.
Proof.
  induction l1 as [| [r | d] l1 IH]; simpl.
  - ring.
  - exact IH.
  - rewrite IH. ring.
Qed.

Lemma posted_app (l1 l2 : list event) : posted (l1 ++ l2) = posted l1 ++ posted l2.
Proof.
  induction l1 as [| [r | d] l1 IH]; simpl; [reflexivity | | exact IH].
  rewrite IH. reflexivity.
Qed.

Lemma posted_failed_trace (rq : request) (n : nat) :
  forall i, posted (failed_trace rq i n) = repeat rq n.
Proof.
  induction n as [| n IH]; intros i; [reflexivity |].
  rewrite failed_trace_S. simpl. rewrite IH. reflexivity.
Qed.

Lemma sleep_sum_S (n : nat) :
  (sleep_sum (S n) == sleep_sum n + backoff_delay n)%Q.
Proof.
  unfold sleep_sum, backoff_delay, Qeq, Qplus. cbn [Qnum Qden].
  rewrite Nat2Z.inj_succ, Z.pow_succ_r by lia. lia.
Qed.

Lemma total_sleep_failed_trace (rq : request) (n : nat) :
  (total_sleep (failed_trace rq 0 n) == sleep_sum n)%Q.
Proof.
  assert (H : forall n i,
    (total_sleep (failed_trace rq i n) + sleep_sum i == sleep_sum (i + n))%Q).
  { clear n. induction n as [| n IH]; intros i.
    - rewrite Nat.add_0_r. simpl. ring.
    - rewrite failed_trace_S. cbn [app total_sleep].
      replace (i + S n)%nat with (S i + n)%nat by lia.
      rewrite <- IH, sleep_sum_S. ring. }
  specialize (H n 0%nat). cbn [Nat.add] in H.
  rewrite <- H. assert (H0 : (sleep_sum 0 == 0)%Q) by reflexivity.
  rewrite H0. ring.
Qed.

Lemma sleep_sum_mono (k n : nat) : (k <= n)%nat -> (sleep_sum k <= sleep_sum n)%Q.
Proof.
  intros H. unfold sleep_sum, Qle. cbn [Qnum Qden].
  assert (2 ^ Z.of_nat k <= 2 ^ Z.of_nat n) by (apply Z.pow_le_mono_r; lia).
  lia.
Qed.

Lemma failed_trace_snoc (rq : request) (n : nat) :
  failed_trace rq 0 (S n)
  = failed_trace rq 0 n ++ [EvPost rq; EvSleep (backoff_delay n)].
Proof.
  unfold failed_trace. rewrite seq_S, flat_map_app. simpl. reflexivity.
Qed.

Lemma sleep_sum_closed_form (n : nat) :
  (sleep_sum n == (5 # 4) * (2 ^ Z.of_nat n - 1))%Q.
Proof.
  induction n as [| n IH]; [reflexivity |].
  rewrite sleep_sum_S, IH, backoff_delay_closed_form.
  rewrite Nat2Z.inj_succ. unfold Z.succ.
  rewrite Qpower_plus by discriminate.
  change (2 ^ 1)%Q with 2%Q. ring.
Qed.

(** The three ways [_overpass_post] can end, from any world. *)
Lemma overpass_post_outcome
    (net : network) (query url ua : string) (timeout_s max_retries : Z)
    (w : world) :
  (exists k d,
      (k < Z.to_nat max_retries)%nat
      /\ (k <= 33)%nat
      /\ (forall j, (j < k)%nat ->
          post_fails (net (w_posts w + j)%nat (request_of query url ua timeout_s))
          = true)
      /\ post_success (net (w_posts w + k)%nat (request_of query url ua timeout_s))
         = Some d
      /\ _overpass_post net query url ua timeout_s max_retries w
         = (inr d, World (w_posts w + S k)
                     (w_log w
                        ++ failed_trace (request_of query url ua timeout_s) 0 k
                        ++ [EvPost (request_of query url ua timeout_s)])))
  \/ ((Z.to_nat max_retries <= 33)%nat
      /\ (forall j, (j < Z.to_nat max_retries)%nat ->
          post_fails (net (w_posts w + j)%nat (request_of query url ua timeout_s))
          = true)
      /\ _overpass_post net query url ua timeout_s max_retries w
         = (inl (Exn RuntimeError
                   ("Overpass request failed after retries: "
                      +:+ str_opt_exn
                            (remembered_error net
                               (request_of query url ua timeout_s)
                               (w_posts w) (Z.to_nat max_retries) None))),
            World (w_posts w + Z.to_nat max_retries)
              (w_log w
                 ++ failed_trace (request_of query url ua timeout_s) 0
                      (Z.to_nat max_retries))))
  \/ ((34 <= Z.to_nat max_retries)%nat
      /\ (forall j, (j < 34)%nat ->
          post_fails (net (w_posts w + j)%nat (request_of query url ua timeout_s))
          = true)
      /\ _overpass_post net query url ua timeout_s max_retries w
         = (inl sleep_refused,
            World (w_posts w + 34)
              (w_log w
                 ++ failed_trace (request_of query url ua timeout_s) 0 33
                 ++ [EvPost (request_of query url ua timeout_s)]))).
Proof.
  unfold _overpass_post.
  exact (retry_loop_outcome net (request_of query url ua timeout_s)
           (Z.to_nat max_retries) initial_retry_state w eq_refl).
Qed.

(** X1: whatever the endpoint does, a call of [_overpass_post] issues at
    most [max_retries] POSTs, and every one of them carries the same
    request: the given URL, the query as form field [data], the given
    User-Agent, [Accept: application/json] and the given timeout. *)
Theorem overpass_post_sends_bounded_identical_requests
    (net : network) (query url ua : string) (timeout_s max_retries : Z)
    (w : world) :
  exists m tl,
    w_log (snd (_overpass_post net query url ua timeout_s max_retries w))
    = w_log w ++ tl
    /\ posted tl = repeat (Request url query ua "application/json" timeout_s) m
    /\ w_posts (snd (_overpass_post net query url ua timeout_s max_retries w))
       = (w_posts w + m)%nat
    /\ (m <= Z.to_nat max_retries)%nat.
Proof.
  destruct (overpass_post_outcome net query url ua timeout_s max_retries w)
    as [(k & d & Hk & _ & _ & _ & ->) | [(_ & _ & ->) | (Hn & _ & ->)]];
    cbn [snd w_log w_posts].
  - exists (S k). eexists. split; [reflexivity |].
    rewrite posted_app, posted_failed_trace. cbn [posted].
    split; [| split; [reflexivity | lia]].
    unfold request_of. rewrite <- repeat_cons. reflexivity.
  - exists (Z.to_nat max_retries). eexists. split; [reflexivity |].
    rewrite posted_failed_trace. split; [reflexivity |]. split; [reflexivity | lia].
  - exists 34%nat. eexists. split; [reflexivity |].
    rewrite posted_app, posted_failed_trace. cbn [posted].
    split; [| split; [reflexivity | lia]].
    unfold request_of. rewrite <- repeat_cons. reflexivity.
Qed.

(** X2: whatever the endpoint does, the time a call of [_overpass_post]
    spends sleeping is at most [1.25 * (2^max_retries - 1)] seconds. *)
Theorem overpass_post_total_sleep_bounded
    (net : network) (query url ua : string) (timeout_s max_retries : Z)
    (w : world) :
  exists tl,
    w_log (snd (_overpass_post net query url ua timeout_s max_retries w))
    = w_log w ++ tl
    /\ (total_sleep tl <= (5 # 4) * (2 ^ Z.of_nat (Z.to_nat max_retries) - 1))%Q.
Proof.
  destruct (overpass_post_outcome net query url ua timeout_s max_retries w)
    as [(k & d & Hk & _ & _ & _ & ->) | [(_ & _ & ->) | (Hn & _ & ->)]];
    cbn [snd w_log];
    eexists; (split; [reflexivity |]);
    rewrite <- sleep_sum_closed_form.
  - rewrite total_sleep_app, total_sleep_failed_trace. cbn [total_sleep].
    rewrite Qplus_0_r. apply sleep_sum_mono. lia.
  - rewrite total_sleep_failed_trace. apply Qle_refl.
  - rewrite total_sleep_app, total_sleep_failed_trace. cbn [total_sleep].
    rewrite Qplus_0_r. apply sleep_sum_mono. lia.
Qed.

(** X3: with a budget of zero or less no attempt is made: the call
    raises [RuntimeError] at once, with no request and no sleep, and the
    message ends in None. *)
Theorem overpass_post_without_budget_raises_at_once
    (net : network) (query url ua : string) (timeout_s max_retries : Z)
    (w : world) :
  max_retries <= 0 ->
  _overpass_post net query url ua timeout_s max_retries w
  = (inl (Exn RuntimeError "Overpass request failed after retries: None"), w).
Proof.
  intros H. unfold _overpass_post.
  replace (Z.to_nat max_retries) with 0%nat by lia. reflexivity.
Qed.

Lemma overpass_post_without_budget_raises_at_once_witness :
  _overpass_post net_demo "q" DEFAULT_OVERPASS_URL DEFAULT_USER_AGENT 45 (-2) w0
  = (inl (Exn RuntimeError "Overpass request failed after retries: None"), w0).
Proof.
  apply (overpass_post_without_budget_raises_at_once net_demo "q"
           DEFAULT_OVERPASS_URL DEFAULT_USER_AGENT 45 (-2) w0).
  lia.
Defined.

(** X4: when [_overpass_post] returns, what it returns is the parsed
    body of the answer to its last POST, and that answer had neither a
    transient status nor an error status; every earlier POST of the
    call had failed, and nothing is slept after the successful POST. *)
Theorem overpass_post_returns_body_of_last_answer
    (net : network) (query url ua : string) (timeout_s max_retries : Z)
    (w w' : world) (d : overpass_data) :
  let rq := Request url query ua "application/json" timeout_s in
  _overpass_post net query url ua timeout_s max_retries w = (inr d, w') ->
  exists k,
    (k < Z.to_nat max_retries)%nat
    /\ w_posts w' = (w_posts w + S k)%nat
    /\ post_success (net (w_posts w + k)%nat rq) = Some d
    /\ (forall j, (j < k)%nat -> post_fails (net (w_posts w + j)%nat rq) = true)
    /\ w_log w' = w_log w ++ failed_trace rq 0 k ++ [EvPost rq].
Proof.
  intros rq Hret.
  destruct (overpass_post_outcome net query url ua timeout_s max_retries w)
    as [(k & d' & Hk & _ & Hfail & Hok & Heq) | [(_ & _ & Heq) | (_ & _ & Heq)]];
    rewrite Heq in Hret; [| discriminate Hret | discriminate Hret].
  injection Hret as <- <-. exists k. cbn [w_posts w_log]. auto.
Qed.

Lemma overpass_post_returns_body_of_last_answer_witness :
  exists k,
    (k < Z.to_nat 6)%nat
    /\ w_posts (snd (_overpass_post (net_429_then_ok 2 (Data None)) "q"
                       DEFAULT_OVERPASS_URL DEFAULT_USER_AGENT 45 6 w0))
       = (w_posts w0 + S k)%nat
    /\ post_success (net_429_then_ok 2 (Data None) (w_posts w0 + k)%nat rq_demo)
       = Some (Data None)
    /\ (forall j, (j < k)%nat ->
        post_fails (net_429_then_ok 2 (Data None) (w_posts w0 + j)%nat rq_demo)
        = true)
    /\ w_log (snd (_overpass_post (net_429_then_ok 2 (Data None)) "q"
                     DEFAULT_OVERPASS_URL DEFAULT_USER_AGENT 45 6 w0))
       = w_log w0 ++ failed_trace rq_demo 0 k ++ [EvPost rq_demo].
Proof.
  apply (overpass_post_returns_body_of_last_answer
           (net_429_then_ok 2 (Data None)) "q" DEFAULT_OVERPASS_URL
           DEFAULT_USER_AGENT 45 6 w0 _ (Data None)).
  reflexivity.
Defined.

(** X5: an exception leaves [_overpass_post] in one of two ways only,
    and exceptions of the HTTP library never escape. Either it is the
    [RuntimeError] of the last line: then the budget was at most 33, the
    call has made exactly [max_retries] POSTs, all of which failed, it
    has slept [1.25 * (2^max_retries - 1)] seconds in all, and (for a
    positive budget) the last thing it did was to sleep the longest
    delay. Or it is the [OverflowError] of [time.sleep] refusing the
    34th delay: then the budget was above 33, the call has made exactly
    34 POSTs, all of which failed, it has slept [1.25 * (2^33 - 1)]
    seconds in all, and the last thing it did was a POST. *)
Theorem overpass_post_raises_runtime_or_overflow_error
    (net : network) (query url ua : string) (timeout_s max_retries : Z)
    (w w' : world) (e : exn) :
  let rq := Request url query ua "application/json" timeout_s in
  let n := Z.to_nat max_retries in
  _overpass_post net query url ua timeout_s max_retries w = (inl e, w') ->
  (exn_cls e = RuntimeError
   /\ max_retries <= 33
   /\ w_posts w' = (w_posts w + n)%nat
   /\ (forall j, (j < n)%nat -> post_fails (net (w_posts w + j)%nat rq) = true)
   /\ exists tl,
        w_log w' = w_log w ++ tl
        /\ (total_sleep tl == (5 # 4) * (2 ^ Z.of_nat n - 1))%Q
        /\ (0 < max_retries ->
            last tl = Some (EvSleep (backoff_delay (n - 1)))))
  \/ (e = Exn OverflowError "timestamp too large to convert to C _PyTime_t"
      /\ 33 < max_retries
      /\ w_posts w' = (w_posts w + 34)%nat
      /\ (forall j, (j < 34)%nat -> post_fails (net (w_posts w + j)%nat rq) = true)
      /\ exists tl,
           w_log w' = w_log w ++ tl
           /\ (total_sleep tl == (5 # 4) * (2 ^ 33 - 1))%Q
           /\ last tl = Some (EvPost rq)).
Proof.
  intros rq n Hret.
  destruct (overpass_post_outcome net query url ua timeout_s max_retries w)
    as [(k & d' & Hk & _ & Hfail & Hok & Heq)
       | [(Hn & Hall & Heq) | (Hn & Hall & Heq)]];
    rewrite Heq in Hret; [discriminate Hret | |].
  - left. injection Hret as <- <-. cbn [exn_cls w_posts w_log].
    split; [reflexivity |]. split; [lia |]. split; [reflexivity |].
    split; [exact Hall |].
    eexists. split; [reflexivity |]. split.
    + rewrite total_sleep_failed_trace. apply sleep_sum_closed_form.
    + intros Hpos. fold n. destruct n as [| m] eqn:Hm; [lia |].
      rewrite failed_trace_snoc.
      change [EvPost (request_of query url ua timeout_s); EvSleep (backoff_delay m)]
        with ([EvPost (request_of query url ua timeout_s)] ++ [EvSleep (backoff_delay m)]).
      rewrite app_assoc, last_snoc.
      replace (S m - 1)%nat with m by lia. reflexivity.
  - right. injection Hret as <- <-.
    split; [reflexivity |]. split; [lia |]. split; [reflexivity |].
    split; [exact Hall |].
    exists (failed_trace rq 0 33 ++ [EvPost rq]).
    split; [reflexivity |]. split.
    + rewrite total_sleep_app, total_sleep_failed_trace. cbn [total_sleep].
      rewrite Qplus_0_r. apply (sleep_sum_closed_form 33).
    + rewrite last_snoc. reflexivity.
Qed.

Lemma overpass_post_raises_runtime_or_overflow_error_witness :
  (exn_cls (Exn RuntimeError "Overpass request failed after retries: Read timed out.")
   = RuntimeError
   /\ 3 <= 33
   /\ w_posts (snd (_overpass_post net_timeout_then_429 "q" DEFAULT_OVERPASS_URL
                    DEFAULT_USER_AGENT 45 3 w0))
      = (w_posts w0 + Z.to_nat 3)%nat
   /\ (forall j, (j < Z.to_nat 3)%nat ->
       post_fails (net_timeout_then_429 (w_posts w0 + j)%nat rq_demo) = true)
   /\ exists tl,
        w_log (snd (_overpass_post net_timeout_then_429 "q" DEFAULT_OVERPASS_URL
                      DEFAULT_USER_AGENT 45 3 w0))
        = w_log w0 ++ tl
        /\ (total_sleep tl == (5 # 4) * (2 ^ Z.of_nat (Z.to_nat 3) - 1))%Q
        /\ (0 < 3 -> last tl = Some (EvSleep (backoff_delay (Z.to_nat 3 - 1)))))
  \/ (Exn RuntimeError "Overpass request failed after retries: Read timed out."
      = Exn OverflowError "timestamp too large to convert to C _PyTime_t"
      /\ 33 < 3
      /\ w_posts (snd (_overpass_post net_timeout_then_429 "q" DEFAULT_OVERPASS_URL
                       DEFAULT_USER_AGENT 45 3 w0))
         = (w_posts w0 + 34)%nat
      /\ (forall j, (j < 34)%nat ->
          post_fails (net_timeout_then_429 (w_posts w0 + j)%nat rq_demo) = true)
      /\ exists tl,
           w_log (snd (_overpass_post net_timeout_then_429 "q" DEFAULT_OVERPASS_URL
                         DEFAULT_USER_AGENT 45 3 w0))
           = w_log w0 ++ tl
           /\ (total_sleep tl == (5 # 4) * (2 ^ 33 - 1))%Q
           /\ last tl = Some (EvPost rq_demo)).
Proof.
  apply (overpass_post_raises_runtime_or_overflow_error net_timeout_then_429 "q"
           DEFAULT_OVERPASS_URL DEFAULT_USER_AGENT 45 3 w0).
  reflexivity.
Defined.

(** ** The address formatter *)

Lemma lstrip_no_leading_space (s : string) :
  starts_with_space (PyStr.lstrip s) = false.
Proof.
  induction s as [| c s IH]; simpl; [reflexivity |].
  destruct (PyStr.isspace c) eqn:Hc; [exact IH |]. simpl. exact Hc.
Qed.

Lemma rstrip_no_trailing_space (s : string) :
  ends_with_space (PyStr.rstrip s) = false.
Proof.
  induction s as [| c s IH]; simpl; [reflexivity |].
  destruct (PyStr.rstrip s) as [| c' r] eqn:Hr.
  - destruct (PyStr.isspace c) eqn:Hc; simpl; [reflexivity | exact Hc].
  - exact IH.
Qed.

Lemma rstrip_keeps_head (s : string) :
  starts_with_space s = false -> starts_with_space (PyStr.rstrip s) = false.
Proof.
  destruct s as [| c s]; simpl; [reflexivity |]. intros Hc.
  destruct (PyStr.rstrip s); [rewrite Hc |]; simpl; assumption.
Qed.

Lemma strip_no_outer_space (s : string) :
  starts_with_space (PyStr.strip s) = false
  /\ ends_with_space (PyStr.strip s) = false.
Proof.
  unfold PyStr.strip. split.
  - apply rstrip_keeps_head, lstrip_no_leading_space.
  - apply rstrip_no_trailing_space.
Qed.

Lemma or_none_Some (s a : string) : PyStr.or_none s = Some a -> a = s /\ s <> EmptyString.
Proof. destruct s; simpl; [discriminate |]. intros [= <-]. split; [reflexivity | discriminate]. Qed.

Lemma build_address_cases (tags : gmap string string) :
  _build_address tags = None
  \/ exists s, _build_address tags = PyStr.or_none (PyStr.strip s).
Proof.
  unfold _build_address. case_bool_decide; [left; reflexivity |].
  right. destruct (PyStr.get_truthy tags "addr:full"); eexists; reflexivity.
Qed.

Lemma build_address_shape (tags : gmap string string) (a : string) :
  _build_address tags = Some a ->
  a <> EmptyString
  /\ starts_with_space a = false
  /\ ends_with_space a = false.
Proof.
  intros Ha.
  destruct (build_address_cases tags) as [Hn | [s Hs]]; [congruence |].
  rewrite Hs in Ha. apply or_none_Some in Ha as [-> Hne].
  split; [exact Hne |]. apply strip_no_outer_space.
Qed.

(** X6: an address returned by [_build_address] is never the empty
    string and carries no whitespace at either end. *)
Theorem build_address_is_nonempty_and_stripped
    (tags : gmap string string) (a : string) :
  _build_address tags = Some a ->
  a <> EmptyString
  /\ starts_with_space a = false
  /\ ends_with_space a = false.
Proof.
  intros Ha. destruct (build_address_shape tags a Ha) as (H1 & H2 & H3).
  repeat split; assumption.
Qed.

Lemma build_address_is_nonempty_and_stripped_witness :
  "12 Main St" <> EmptyString
  /\ starts_with_space "12 Main St" = false
  /\ ends_with_space "12 Main St" = false.
Proof.
  apply (build_address_is_nonempty_and_stripped
           {[ "addr:street" := "Main St " ; "addr:housenumber" := " 12" ]}).
  vm_compute. reflexivity.
Defined.

Lemma lookup_nonempty (tags : gmap string string) (k v : string) :
  tags !! k = Some v -> bool_decide (tags = ∅) = false.
Proof.
  intros H. apply bool_decide_eq_false. intros ->.
  rewrite lookup_empty in H. discriminate H.
Qed.

(** X7: a non-empty [addr:full] tag decides the address alone: the
    result is its value stripped of surrounding whitespace, or [None]
    when that leaves nothing, whatever the other tags say. *)
Theorem build_address_prefers_full
    (tags : gmap string string) (full : string) :
  tags !! "addr:full" = Some full ->
  full <> EmptyString ->
  _build_address tags = PyStr.or_none (PyStr.strip full).
Proof.
  intros Hfull Hne. unfold _build_address, PyStr.get_truthy.
  rewrite (lookup_nonempty _ _ _ Hfull), Hfull.
  destruct full; [contradiction |]. reflexivity.
Qed.

Lemma build_address_prefers_full_witness :
  _build_address {[ "addr:full" := "   " ; "addr:street" := "Main St" ]}
  = PyStr.or_none (PyStr.strip "   ").
Proof.
  apply (build_address_prefers_full
           {[ "addr:full" := "   " ; "addr:street" := "Main St" ]} "   ").
  - reflexivity.
  - discriminate.
Defined.

Lemma collect_parts_none (tags : gmap string string) (ks : list string) :
  (forall k, In k ks -> PyStr.get_truthy tags k = None) ->
  collect_parts tags ks = [].
Proof.
  induction ks as [| k ks IH]; intros H; simpl; [reflexivity |].
  rewrite (H k) by (left; reflexivity).
  apply IH. intros k' Hk'. apply H. right. exact Hk'.
Qed.

(** X8: when none of the seven address tags has a non-empty value (in
    particular for an empty tag mapping), there is no address. *)
Theorem build_address_without_address_tags
    (tags : gmap string string) :
  (forall k, In k address_tag_keys -> PyStr.get_truthy tags k = None) ->
  _build_address tags = None.
Proof.
  intros H. unfold _build_address. case_bool_decide; [reflexivity |].
  rewrite (H "addr:full") by (left; reflexivity).
  rewrite collect_parts_none.
  - rewrite (H "contact:address"); [reflexivity |].
    unfold address_tag_keys. right. apply in_or_app. right. left. reflexivity.
  - intros k Hk. apply H. right. apply in_or_app. left. exact Hk.
Qed.

Lemma build_address_without_address_tags_witness :
  _build_address {[ "name" := "Cafe A" ; "addr:street" := EmptyString ]} = None.
Proof.
  apply (build_address_without_address_tags
           {[ "name" := "Cafe A" ; "addr:street" := EmptyString ]}).
  intros k Hk. simpl in Hk.
  repeat (destruct Hk as [<- | Hk]; [reflexivity |]). contradiction.
Defined.

Lemma collect_parts_ext (tags tags' : gmap string string) (ks : list string) :
  (forall k, In k ks -> tags !! k = tags' !! k) ->
  collect_parts tags ks = collect_parts tags' ks.
Proof.
  induction ks as [| k ks IH]; intros H; simpl; [reflexivity |].
  unfold PyStr.get_truthy. rewrite (H k) by (left; reflexivity).
  rewrite IH; [reflexivity |]. intros k' Hk'. apply H. right. exact Hk'.
Qed.

Lemma get_truthy_lookup_None (tags : gmap string string) (k : string) :
  tags !! k = None -> PyStr.get_truthy tags k = None.
Proof. unfold PyStr.get_truthy. intros ->. reflexivity. Qed.

(** X9: the address depends on the seven address tags only: two tag
    mappings that agree on them give the same address, whatever else
    they hold. *)
Theorem build_address_reads_only_address_tags
    (tags tags' : gmap string string) :
  (forall k, In k address_tag_keys -> tags !! k = tags' !! k) ->
  _build_address tags = _build_address tags'.
Proof.
  intros H.
  assert (Hsame : forall t t' : gmap string string,
             (forall k, In k address_tag_keys -> t !! k = t' !! k) ->
             t = ∅ -> _build_address t' = None).
  { intros t t' Ht ->. apply build_address_without_address_tags.
    intros k Hk. apply get_truthy_lookup_None.
    rewrite <- (Ht k Hk). apply lookup_empty. }
  destruct (decide (tags = ∅)) as [He | Hne].
  - rewrite (Hsame tags tags' H He). subst tags. reflexivity.
  - destruct (decide (tags' = ∅)) as [He' | Hne'].
    + rewrite (Hsame tags' tags); [subst tags'; reflexivity | | exact He'].
      intros k Hk. symmetry. apply H. exact Hk.
    + unfold _build_address, PyStr.get_truthy.
      rewrite !bool_decide_eq_false_2 by assumption.
      rewrite (H "addr:full") by (left; reflexivity).
      rewrite (collect_parts_ext tags tags').
      * rewrite (H "contact:address"); [reflexivity |].
        right. apply in_or_app. right. left. reflexivity.
      * intros k Hk. apply H. right. apply in_or_app. left. exact Hk.
Qed.

Lemma build_address_reads_only_address_tags_witness :
  _build_address {[ "addr:city" := "Taipei" ; "name" := "Vet B" ]}
  = _build_address {[ "addr:city" := "Taipei" ; "phone" := "123" ]}.
Proof.
  apply (build_address_reads_only_address_tags
           {[ "addr:city" := "Taipei" ; "name" := "Vet B" ]}
           {[ "addr:city" := "Taipei" ; "phone" := "123" ]}).
  intros k Hk. simpl in Hk.
  repeat (destruct Hk as [<- | Hk]; [reflexivity |]). contradiction.
Defined.

Lemma collect_parts_nonempty (tags : gmap string string) (ks : list string)
    (k v : string) :
  In k ks -> tags !! k = Some v -> v <> EmptyString ->
  collect_parts tags ks <> [].
Proof.
  induction ks as [| k0 ks IH]; intros Hin Hk Hv; [contradiction |].
  simpl. destruct Hin as [-> | Hin].
  - unfold PyStr.get_truthy. rewrite Hk. destruct v; [contradiction |].
    simpl. discriminate.
  - destruct (PyStr.get_truthy tags k0); [discriminate |].
    apply (IH Hin Hk Hv).
Qed.

(** X10: [contact:address] is a fallback only: as soon as one of the
    five structured address tags has a non-empty value, the value of
    [contact:address] (or its absence) does not change the address. *)
Theorem build_address_contact_is_fallback_only
    (tags tags' : gmap string string) (k v : string) :
  In k address_keys -> tags !! k = Some v -> v <> EmptyString ->
  (forall k', k' <> "contact:address" -> tags !! k' = tags' !! k') ->
  _build_address tags = _build_address tags'.
Proof.
  intros Hin Hk Hv Hagree.
  assert (Hk' : tags' !! k = Some v).
  { rewrite <- Hagree; [exact Hk |].
    intros ->. simpl in Hin.
    repeat (destruct Hin as [Hin | Hin]; [discriminate Hin |]). contradiction. }
  assert (Hparts : collect_parts tags address_keys = collect_parts tags' address_keys).
  { apply collect_parts_ext. intros k0 Hk0. apply Hagree.
    intros ->. simpl in Hk0.
    repeat (destruct Hk0 as [Hk0 | Hk0]; [discriminate Hk0 |]). contradiction. }
  pose proof (collect_parts_nonempty tags address_keys k v Hin Hk Hv) as Hne.
  unfold _build_address, PyStr.get_truthy.
  rewrite (lookup_nonempty _ _ _ Hk), (lookup_nonempty _ _ _ Hk').
  rewrite <- (Hagree "addr:full") by discriminate.
  rewrite <- Hparts.
  destruct (collect_parts tags address_keys) as [| p ps]; [contradiction |].
  reflexivity.
Qed.

Lemma build_address_contact_is_fallback_only_witness :
  _build_address {[ "addr:street" := "Main St" ; "contact:address" := "elsewhere" ]}
  = _build_address {[ "addr:street" := "Main St" ]}.
Proof.
  apply (build_address_contact_is_fallback_only
           {[ "addr:street" := "Main St" ; "contact:address" := "elsewhere" ]}
           {[ "addr:street" := "Main St" ]} "addr:street" "Main St").
  - simpl. right. left. reflexivity.
  - reflexivity.
  - discriminate.
  - intros k' Hk'.
    destruct (decide (k' = "addr:street")) as [-> | Hs]; [reflexivity |].
    simplify_map_eq. reflexivity.
Defined.

(** ** Elements without coordinates *)

Section Coordinates.

Variable P : platform.
Variables latitude longitude : float.

Lemma candidate_of_has_coordinates (el : element) :
  has_coordinates el = false -> candidate_of P latitude longitude el = None.
Proof.
  unfold has_coordinates, candidate_of.
  destruct (_extract_center el) as [[plat plon] |]; [discriminate | reflexivity].
Qed.

Lemma candidates_filter (els : list element) :
  candidates P latitude longitude (List.filter has_coordinates els)
  = candidates P latitude longitude els.
Proof.
  induction els as [| el els IH]; [reflexivity |].
  cbn [List.filter]. destruct (has_coordinates el) eqn:Hc.
  - cbn [candidates]. rewrite IH. reflexivity.
  - cbn [candidates]. rewrite (candidate_of_has_coordinates el Hc). exact IH.
Qed.

Lemma candidates_length (els : list element) :
  forall cs,
    candidates P latitude longitude els = ok cs ->
    length cs = length (List.filter has_coordinates els).
Proof.
  induction els as [| el els IH]; intros cs Hcs; simpl in Hcs.
  - injection Hcs as <-. reflexivity.
  - cbn [List.filter]. unfold has_coordinates, candidate_of in *.
    destruct (_extract_center el) as [[plat plon] |]; [| apply IH; exact Hcs].
    destruct (rounded_distance P latitude longitude plat plon) as [e | dist];
      simpl in Hcs; [discriminate |].
    destruct (candidates P latitude longitude els) as [e | cs']; simpl in Hcs;
      [discriminate |].
    injection Hcs as <-. simpl. f_equal. apply IH. reflexivity.
Qed.

Lemma candidates_without_coordinates (els : list element) :
  Forall (fun el => has_coordinates el = false) els ->
  candidates P latitude longitude els = ok [].
Proof.
  induction 1 as [| el els Hel _ IH]; [reflexivity |].
  cbn [candidates]. rewrite (candidate_of_has_coordinates el Hel). exact IH.
Qed.

(** Where a candidate comes from. *)
Lemma candidates_provenance (els : list element) :
  forall cs c,
    candidates P latitude longitude els = ok cs ->
    In c cs ->
    exists el plat plon,
      In el els
      /\ _extract_center el = Some (plat, plon)
      /\ rounded_distance P latitude longitude plat plon = ok (cand_dist c)
      /\ record_of c = element_record el (cand_dist c).
Proof.
  induction els as [| el els IH]; intros cs c Hcs Hc; simpl in Hcs.
  - injection Hcs as <-. contradiction.
  - unfold candidate_of in Hcs.
    destruct (_extract_center el) as [[plat plon] |] eqn:Hcenter.
    + destruct (rounded_distance P latitude longitude plat plon) as [e | dist] eqn:Hd;
        simpl in Hcs; [discriminate |].
      destruct (candidates P latitude longitude els) as [e | cs'] eqn:Hrest;
        simpl in Hcs; [discriminate |].
      injection Hcs as <-. destruct Hc as [<- | Hc].
      * exists el, plat, plon. repeat split; auto. left. reflexivity.
      * destruct (IH cs' c eq_refl Hc) as (el' & plat' & plon' & Hin & H1 & H2 & H3).
        exists el', plat', plon'. repeat split; auto. right. exact Hin.
    + destruct (IH cs c Hcs Hc) as (el' & plat' & plon' & Hin & H1 & H2 & H3).
      exists el', plat', plon'. repeat split; auto. right. exact Hin.
Qed.

End Coordinates.

(** X11: elements without coordinates play no part at all: both loops
    give the same result (or raise the same exception) on a list of
    elements and on that list with the coordinate-less elements taken
    out; in the food search they do not even enter the [seen] set. *)
Theorem loops_ignore_elements_without_coordinates
    (P : platform) (latitude longitude : float) (els : list element)
    (seen : gset (string * string)) (records : list record) :
  veterinary_loop P latitude longitude (List.filter has_coordinates els) records
  = veterinary_loop P latitude longitude els records
  /\ food_loop P latitude longitude (List.filter has_coordinates els) seen records
     = food_loop P latitude longitude els seen records.
Proof.
  rewrite !veterinary_loop_spec, !food_loop_spec, candidates_filter.
  split; reflexivity.
Qed.

(** X12: when the response has no [elements] key, an empty list, or
    only elements without coordinates, both searches return the empty
    list and do not raise, whatever [top_n] is. *)
Theorem search_of_response_without_coordinates_is_empty
    (P : platform) (net : network) (cat : category)
    (latitude longitude : float) (radius_m top_n : Z) (url ua : string)
    (w w1 : world) (data : overpass_data) :
  _overpass_post net (category_query P cat radius_m latitude longitude)
    url ua 45 6 w = (inr data, w1) ->
  Forall (fun el => has_coordinates el = false) (elements_of data) ->
  category_search P net cat latitude longitude radius_m top_n url ua w
  = (inr [], w1).
Proof.
  intros Hpost Hnone.
  rewrite (category_search_returns P net cat latitude longitude radius_m top_n
             url ua w w1 data []
             Hpost (candidates_without_coordinates P _ _ _ Hnone)).
  destruct cat; simpl; rewrite firstn_nil; reflexivity.
Qed.

Lemma search_of_response_without_coordinates_is_empty_witness :
  category_search toy_platform (net_429_then_ok 0 (Data None)) Veterinary
    F64.zero F64.zero 1500 20 DEFAULT_OVERPASS_URL DEFAULT_USER_AGENT w0
  = (inr [],
     snd (_overpass_post (net_429_then_ok 0 (Data None))
            (category_query toy_platform Veterinary 1500 F64.zero F64.zero)
            DEFAULT_OVERPASS_URL DEFAULT_USER_AGENT 45 6 w0)).
Proof.
  apply (search_of_response_without_coordinates_is_empty toy_platform
           (net_429_then_ok 0 (Data None)) Veterinary F64.zero F64.zero 1500 20
           DEFAULT_OVERPASS_URL DEFAULT_USER_AGENT w0 _ (Data None)).
  - reflexivity.
  - constructor.
Defined.

(** ** Size, order and origin of the results *)

Lemma demo_search_food_returns :
  demo_search (PetFriendlyFood true) 20 w0
  = (inr [ _to_output_record (Some "Vet B") None 111195;
           _to_output_record (Some "Cafe A") None 222390 ],
     snd (demo_post (PetFriendlyFood true) w0)).
Proof.
  unfold demo_search.
  rewrite (category_search_returns toy_platform net_demo (PetFriendlyFood true)
             F64.zero F64.zero 1500 20 DEFAULT_OVERPASS_URL DEFAULT_USER_AGENT
             w0 _ demo_data demo_candidates
             (demo_post_ok (PetFriendlyFood true)) demo_candidates_ok).
  f_equal.
Qed.

Lemma demo_search_veterinary_returns :
  demo_search Veterinary 20 w0
  = (inr [ _to_output_record (Some "Vet B") None 111195;
           _to_output_record (Some "Cafe A") None 222390;
           _to_output_record (Some "Cafe A") None 333585 ],
     snd (demo_post Veterinary w0)).
Proof.
  unfold demo_search.
  rewrite (category_search_returns toy_platform net_demo Veterinary
             F64.zero F64.zero 1500 20 DEFAULT_OVERPASS_URL DEFAULT_USER_AGENT
             w0 _ demo_data demo_candidates
             (demo_post_ok Veterinary) demo_candidates_ok).
  f_equal.
Qed.

Lemma category_keeps_length (cat : category) (cs : list candidate) :
  (length (category_keeps cat cs) <= length cs)%nat.
Proof.
  destruct cat; simpl; [lia | apply first_occurrences_length].
Qed.

Lemma sort_by_length {A} (f : A -> Z) (l : list A) : length (sort_by f l) = length l.
Proof. apply Permutation_length, sort_by_perm. Qed.

(** X13: a search never returns more than [max(0, top_n)] records, nor
    more records than the response has elements with coordinates. *)
Theorem search_result_length_bounded
    (P : platform) (net : network) (cat : category)
    (latitude longitude : float) (radius_m top_n : Z) (url ua : string)
    (w w1 : world) (out : list record) :
  category_search P net cat latitude longitude radius_m top_n url ua w
  = (inr out, w1) ->
  (length out <= Z.to_nat (Z.max 0 top_n))%nat
  /\ exists data,
       _overpass_post net (category_query P cat radius_m latitude longitude)
         url ua 45 6 w = (inr data, w1)
       /\ (length out
           <= length (List.filter has_coordinates (elements_of data)))%nat.
Proof.
  intros Hret.
  destruct (category_search_inv P net cat latitude longitude radius_m top_n
              url ua w w1 out Hret) as (data & cs & Hpost & Hcs & ->).
  rewrite length_firstn, sort_by_length, length_map.
  split; [lia |]. exists data. split; [exact Hpost |].
  rewrite <- (candidates_length P latitude longitude _ cs Hcs).
  pose proof (category_keeps_length cat cs). lia.
Qed.

Lemma search_result_length_bounded_witness :
  (length [ _to_output_record (Some "Vet B") None 111195;
            _to_output_record (Some "Cafe A") None 222390 ]
   <= Z.to_nat (Z.max 0 20))%nat
  /\ exists data,
       _overpass_post net_demo
         (category_query toy_platform (PetFriendlyFood true) 1500 F64.zero F64.zero)
         DEFAULT_OVERPASS_URL DEFAULT_USER_AGENT 45 6 w0
       = (inr data, snd (demo_post (PetFriendlyFood true) w0))
       /\ (length [ _to_output_record (Some "Vet B") None 111195;
                    _to_output_record (Some "Cafe A") None 222390 ]
           <= length (List.filter has_coordinates (elements_of data)))%nat.
Proof.
  exact (search_result_length_bounded toy_platform net_demo (PetFriendlyFood true)
           F64.zero F64.zero 1500 20 DEFAULT_OVERPASS_URL DEFAULT_USER_AGENT
           w0 _ _ demo_search_food_returns).
Defined.

(** X14: the veterinary search does not deduplicate: it returns one
    record for every element with coordinates, up to [max(0, top_n)]. *)
Theorem veterinary_search_returns_every_element_with_coordinates
    (P : platform) (net : network)
    (latitude longitude : float) (radius_m top_n : Z) (url ua : string)
    (w w1 : world) (out : list record) :
  search_nearby_veterinary P net latitude longitude radius_m top_n url ua w
  = (inr out, w1) ->
  exists data,
    _overpass_post net (veterinary_query P radius_m latitude longitude)
      url ua 45 6 w = (inr data, w1)
    /\ length out
       = Nat.min (Z.to_nat (Z.max 0 top_n))
           (length (List.filter has_coordinates (elements_of data))).
Proof.
  intros Hret.
  destruct (category_search_inv P net Veterinary latitude longitude radius_m
              top_n url ua w w1 out Hret) as (data & cs & Hpost & Hcs & ->).
  exists data. split; [exact Hpost |].
  rewrite length_firstn, sort_by_length, length_map. cbn [category_keeps].
  rewrite (candidates_length P latitude longitude _ cs Hcs). reflexivity.
Qed.

Lemma veterinary_search_returns_every_element_with_coordinates_witness :
  exists data,
    _overpass_post net_demo (veterinary_query toy_platform 1500 F64.zero F64.zero)
      DEFAULT_OVERPASS_URL DEFAULT_USER_AGENT 45 6 w0
    = (inr data, snd (demo_post Veterinary w0))
    /\ length [ _to_output_record (Some "Vet B") None 111195;
                _to_output_record (Some "Cafe A") None 222390;
                _to_output_record (Some "Cafe A") None 333585 ]
       = Nat.min (Z.to_nat (Z.max 0 20))
           (length (List.filter has_coordinates (elements_of data))).
Proof.
  exact (veterinary_search_returns_every_element_with_coordinates toy_platform
           net_demo F64.zero F64.zero 1500 20 DEFAULT_OVERPASS_URL
           DEFAULT_USER_AGENT w0 _ _ demo_search_veterinary_returns).
Defined.

Lemma filter_firstn_prefix {A} (f : A -> bool) (n : nat) (l : list A) :
  exists rest, List.filter f l = List.filter f (firstn n l) ++ rest.
Proof.
  exists (List.filter f (skipn n l)).
  rewrite <- List.filter_app, firstn_skipn. reflexivity.
Qed.

(** X15: ties keep the order of the response: among the returned
    records of one distance, the order is the order in which their
    elements came, and only later ones are cut by [top_n]. *)
Theorem search_keeps_response_order_among_equal_distances
    (P : platform) (net : network) (cat : category)
    (latitude longitude : float) (radius_m top_n : Z) (url ua : string)
    (w w1 : world) (data : overpass_data) (cs : list candidate) :
  _overpass_post net (category_query P cat radius_m latitude longitude)
    url ua 45 6 w = (inr data, w1) ->
  candidates P latitude longitude (elements_of data) = ok cs ->
  exists out,
    category_search P net cat latitude longitude radius_m top_n url ua w
    = (inr out, w1)
    /\ forall d,
         exists cut,
           List.filter (has_distance d) (map record_of (category_keeps cat cs))
           = List.filter (has_distance d) out ++ cut.
Proof.
  intros Hpost Hcs. eexists. split.
  - exact (category_search_returns P net cat latitude longitude radius_m top_n
             url ua w w1 data cs Hpost Hcs).
  - intros d.
    destruct (filter_firstn_prefix (has_distance d) (Z.to_nat (Z.max 0 top_n))
                (sort_by distance_of (map record_of (category_keeps cat cs))))
      as [cut Hcut].
    exists cut. rewrite <- Hcut. symmetry.
    apply (sort_by_stable distance_of d).
Qed.

Lemma search_keeps_response_order_among_equal_distances_witness :
  exists out,
    category_search toy_platform net_demo Veterinary F64.zero F64.zero 1500 2
      DEFAULT_OVERPASS_URL DEFAULT_USER_AGENT w0
    = (inr out, snd (demo_post Veterinary w0))
    /\ forall d,
         exists cut,
           List.filter (has_distance d)
             (map record_of (category_keeps Veterinary demo_candidates))
           = List.filter (has_distance d) out ++ cut.
Proof.
  exact (search_keeps_response_order_among_equal_distances toy_platform net_demo
           Veterinary F64.zero F64.zero 1500 2 DEFAULT_OVERPASS_URL
           DEFAULT_USER_AGENT w0 _ demo_data demo_candidates
           (demo_post_ok Veterinary) demo_candidates_ok).
Defined.

Lemma in_firstn {A} (n : nat) (l : list A) (x : A) : In x (firstn n l) -> In x l.
Proof.
  revert l. induction n as [| n IH]; intros [| y l]; simpl; try contradiction.
  intros [-> | H]; [left; reflexivity | right; apply IH; exact H].
Qed.

(** X16: every returned record is the record of an element of the
    response: that element has coordinates, the record's name and
    address are read from its tags, and its [distance_m] is the rounded
    distance from the origin to those coordinates. *)
Theorem search_results_come_from_response_elements
    (P : platform) (net : network) (cat : category)
    (latitude longitude : float) (radius_m top_n : Z) (url ua : string)
    (w w1 : world) (out : list record) :
  category_search P net cat latitude longitude radius_m top_n url ua w
  = (inr out, w1) ->
  exists data,
    _overpass_post net (category_query P cat radius_m latitude longitude)
      url ua 45 6 w = (inr data, w1)
    /\ forall r, In r out ->
         exists el plat plon dist,
           In el (elements_of data)
           /\ _extract_center el = Some (plat, plon)
           /\ rounded_distance P latitude longitude plat plon = ok dist
           /\ r = _to_output_record (PyStr.get_truthy (tags_of el) "name")
                    (_build_address (tags_of el)) dist.
Proof.
  intros Hret.
  destruct (category_search_inv P net cat latitude longitude radius_m top_n
              url ua w w1 out Hret) as (data & cs & Hpost & Hcs & ->).
  exists data. split; [exact Hpost |].
  intros r Hr. apply in_firstn in Hr.
  apply (Permutation_in _ (sort_by_perm distance_of _)) in Hr.
  apply in_map_iff in Hr as (c & <- & Hc).
  assert (Hc' : In c cs).
  { destruct cat; simpl in Hc; [exact Hc |].
    apply list_elem_of_In, first_occurrences_sub, list_elem_of_In. exact Hc. }
  destruct (candidates_provenance P latitude longitude _ cs c Hcs Hc')
    as (el & plat & plon & Hin & Hcenter & Hdist & Hrec).
  exists el, plat, plon, (cand_dist c). auto.
Qed.

Lemma search_results_come_from_response_elements_witness :
  exists data,
    _overpass_post net_demo
      (category_query toy_platform (PetFriendlyFood true) 1500 F64.zero F64.zero)
      DEFAULT_OVERPASS_URL DEFAULT_USER_AGENT 45 6 w0
    = (inr data, snd (demo_post (PetFriendlyFood true) w0))
    /\ forall r,
         In r [ _to_output_record (Some "Vet B") None 111195;
                _to_output_record (Some "Cafe A") None 222390 ] ->
         exists el plat plon dist,
           In el (elements_of data)
           /\ _extract_center el = Some (plat, plon)
           /\ rounded_distance toy_platform F64.zero F64.zero plat plon = ok dist
           /\ r = _to_output_record (PyStr.get_truthy (tags_of el) "name")
                    (_build_address (tags_of el)) dist.
Proof.
  exact (search_results_come_from_response_elements toy_platform net_demo
           (PetFriendlyFood true) F64.zero F64.zero 1500 20 DEFAULT_OVERPASS_URL
           DEFAULT_USER_AGENT w0 _ _ demo_search_food_returns).
Defined.

(** ** Exceptions of the distance computation *)

Lemma math_1_error (f : float -> float) (x : float) (e : exn) :
  PyMath.math_1 f false x = inl e -> e = Exn ValueError "math domain error".
Proof.
  unfold PyMath.math_1.
  destruct (F64.is_nan (f x) && negb (F64.is_nan x)); [intros [= <-]; reflexivity |].
  destruct (F64.is_inf (f x) && F64.is_finite x); [intros [= <-]; reflexivity |].
  discriminate.
Qed.

Lemma pow2_error (P : platform) (x : float) (e : exn) :
  PyMath.pow2 P x = inl e -> exn_cls e = OverflowError.
Proof.
  unfold PyMath.pow2. destruct x as [s | s | | s m e0]; try discriminate.
  destruct (F64.eqb _ _); [discriminate |].
  destruct (F64.is_inf _); [intros [= <-]; reflexivity | discriminate].
Qed.

Lemma round_error (x : float) (e : exn) :
  PyMath.round x = inl e -> exn_cls e = ValueError \/ exn_cls e = OverflowError.
Proof.
  destruct x; simpl; try discriminate; intros [= <-]; auto.
Qed.

Lemma haversine_error (P : platform) (lat1 lon1 lat2 lon2 : float) (e : exn) :
  _haversine_m P lat1 lon1 lat2 lon2 = inl e ->
  exn_cls e = ValueError \/ exn_cls e = OverflowError.
Proof.
  unfold _haversine_m, PyMath.sin, PyMath.cos, PyMath.asin, PyMath.sqrt.
  repeat match goal with
         | |- rbind ?m _ = inl _ -> _ =>
             let H := fresh "H" in
             destruct m eqn:H; cbn [rbind];
             [ intros [= <-];
               first [ apply math_1_error in H; subst; left; reflexivity
                     | apply pow2_error in H; right; exact H ]
             | ]
         end.
  discriminate.
Qed.

Lemma rounded_distance_error (P : platform) (a b c d : float) (e : exn) :
  rounded_distance P a b c d = inl e ->
  exn_cls e = ValueError \/ exn_cls e = OverflowError.
Proof.
  unfold rounded_distance.
  destruct (_haversine_m P a b c d) as [e' | x] eqn:H; cbn [rbind].
  - intros [= <-]. exact (haversine_error _ _ _ _ _ _ H).
  - apply round_error.
Qed.

Lemma candidates_error (P : platform) (lat lon : float) (els : list element)
    (e : exn) :
  candidates P lat lon els = inl e ->
  exn_cls e = ValueError \/ exn_cls e = OverflowError.
Proof.
  induction els as [| el els IH]; simpl; [discriminate |].
  unfold candidate_of.
  destruct (_extract_center el) as [[plat plon] |]; [| exact IH].
  destruct (rounded_distance P lat lon plat plon) as [e' | dist] eqn:Hd; simpl.
  - intros [= <-]. exact (rounded_distance_error _ _ _ _ _ _ Hd).
  - destruct (candidates P lat lon els) as [e' | cs]; simpl; [| discriminate].
    intros [= <-]. apply IH. reflexivity.
Qed.

(** ** Failure of the transport inside a search *)

(** A search hands on whatever the transport raises, and the world the
    transport left. *)
Lemma category_search_transport_error
    (P : platform) (net : network) (cat : category)
    (latitude longitude : float) (radius_m top_n : Z) (url ua : string)
    (w w' : world) (e : exn) :
  _overpass_post net (category_query P cat radius_m latitude longitude)
    url ua 45 6 w = (inl e, w') ->
  category_search P net cat latitude longitude radius_m top_n url ua w
  = (inl e, w').
Proof.
  intros Hpost.
  destruct cat; simpl in *;
    unfold search_nearby_veterinary, search_nearby_pet_friendly_food, bind;
    rewrite Hpost; reflexivity.
Qed.

(** X17: when all six attempts of the transport fail, whatever the way
    each of them fails, a category search fails hard: it raises the
    transport's [RuntimeError] unchanged and returns no list, after
    exactly six POSTs, each followed by its sleep, 78.75 seconds in all;
    and when the sixth attempt failed by an exception, the message names
    that exception. *)
Theorem search_raises_when_all_six_attempts_fail
    (P : platform) (net : network) (cat : category)
    (latitude longitude : float) (radius_m top_n : Z) (url ua : string)
    (w : world) :
  let rq := Request url (category_query P cat radius_m latitude longitude)
              ua "application/json" 45 in
  (forall j, (j < 6)%nat -> post_fails (net (w_posts w + j)%nat rq) = true) ->
  exists cause,
    category_search P net cat latitude longitude radius_m top_n url ua w
    = (inl (Exn RuntimeError
              ("Overpass request failed after retries: " +:+ str_opt_exn cause)),
       World (w_posts w + 6) (w_log w ++ failed_trace rq 0 6))
    /\ (total_sleep (failed_trace rq 0 6) == 315 # 4)%Q
    /\ (forall e,
          post_exception (net (w_posts w + 5)%nat rq) = Some e -> cause = Some e).
Proof.
  intros rq Hfail.
  exists (remembered_error net rq (w_posts w) 6 None).
  split; [| split].
  - apply category_search_transport_error. unfold _overpass_post. fold rq.
    change (Z.to_nat 6) with 6%nat.
    apply (retry_loop_exhausted net rq 6 initial_retry_state w 0);
      [reflexivity | lia | exact Hfail].
  - rewrite total_sleep_failed_trace. reflexivity.
  - intros e He. apply remembered_error_last. exact He.
Qed.

Lemma search_raises_when_all_six_attempts_fail_witness :
  exists cause,
    category_search toy_platform net_timeout_then_429 Veterinary F64.zero F64.zero
      1500 20 DEFAULT_OVERPASS_URL DEFAULT_USER_AGENT w0
    = (inl (Exn RuntimeError
              ("Overpass request failed after retries: " +:+ str_opt_exn cause)),
       World (w_posts w0 + 6)
         (w_log w0
            ++ failed_trace
                 (Request DEFAULT_OVERPASS_URL
                    (category_query toy_platform Veterinary 1500 F64.zero F64.zero)
                    DEFAULT_USER_AGENT "application/json" 45) 0 6))
    /\ (total_sleep
          (failed_trace
             (Request DEFAULT_OVERPASS_URL
                (category_query toy_platform Veterinary 1500 F64.zero F64.zero)
                DEFAULT_USER_AGENT "application/json" 45) 0 6) == 315 # 4)%Q
    /\ (forall e,
          post_exception
            (net_timeout_then_429 (w_posts w0 + 5)%nat
               (Request DEFAULT_OVERPASS_URL
                  (category_query toy_platform Veterinary 1500 F64.zero F64.zero)
                  DEFAULT_USER_AGENT "application/json" 45)) = Some e ->
          cause = Some e).
Proof.
  apply (search_raises_when_all_six_attempts_fail toy_platform
           net_timeout_then_429 Veterinary F64.zero F64.zero 1500 20
           DEFAULT_OVERPASS_URL DEFAULT_USER_AGENT w0).
  intros j _. destruct j; reflexivity.
Defined.

(** ** Sign of the distance *)

Lemma binary_round_aux_sign (s : bool) (m e : Z) (l : location) :
  binary_round_aux F64.prec F64.emax s m e l = S754_nan
  \/ (exists s', binary_round_aux F64.prec F64.emax s m e l = S754_zero s')
  \/ binary_round_aux F64.prec F64.emax s m e l = S754_infinity s
  \/ exists m' e', binary_round_aux F64.prec F64.emax s m e l = S754_finite s m' e'.
Proof.
  unfold binary_round_aux.
  destruct (shr_fexp F64.prec F64.emax m e l) as [mrs1 e1].
  destruct (shr_fexp F64.prec F64.emax _ e1 loc_Exact) as [mrs2 e2].
  destruct (shr_m mrs2) as [| p | p]; [right; left; eauto | | left; reflexivity].
  destruct (e2 <=? F64.emax - F64.prec); [| right; right; left; reflexivity].
  right. right. right. eauto.
Qed.

Lemma binary_round_aux_not_negative (m e : Z) (l : location) :
  not_negative (binary_round_aux F64.prec F64.emax false m e l).
Proof.
  destruct (binary_round_aux_sign false m e l)
    as [-> | [[s' ->] | [-> | (m' & e' & ->)]]]; exact I.
Qed.

Lemma sqrt_not_negative (x : float) : not_negative (F64.sqrt x).
Proof.
  unfold F64.sqrt, SFsqrt.
  destruct x as [s | [|] | | [|] m e]; try exact I.
  destruct (SFsqrt_core_binary F64.prec F64.emax (Z.pos m) e) as [[mz ez] lz].
  apply binary_round_aux_not_negative.
Qed.

Lemma mul_not_negative (m : positive) (e : Z) (y : float) :
  not_negative y -> not_negative (F64.mul (S754_finite false m e) y).
Proof.
  unfold F64.mul, SFmul.
  destruct y as [s | [|] | | [|] my ey]; simpl; try contradiction; intros _;
    try exact I.
  apply binary_round_aux_not_negative.
Qed.

Lemma round_half_even_nonneg (m : positive) (e : Z) :
  0 <= PyMath.round_half_even (Zpos m) e.
Proof.
  unfold PyMath.round_half_even.
  destruct (0 <=? e) eqn:He.
  - apply Z.leb_le in He. apply Z.mul_nonneg_nonneg; [lia |].
    apply Z.pow_nonneg. lia.
  - assert (Hd : 0 < 2 ^ (- e)) by (apply Z.pow_pos_nonneg; lia).
    assert (Hq : 0 <= Zpos m / 2 ^ (- e)) by (apply Z.div_pos; lia).
    destruct (2 * (Zpos m mod 2 ^ (- e)) ?= 2 ^ (- e)); try lia.
    destruct (Z.even _); lia.
Qed.

Lemma round_not_negative (x : float) (d : Z) :
  not_negative x -> PyMath.round x = ok d -> 0 <= d.
Proof.
  destruct x as [s | s | | [|] m e]; simpl; try contradiction; try discriminate;
    intros _ [= <-]; [lia |].
  apply round_half_even_nonneg.
Qed.

Lemma math_1_value (f : float -> float) (b : bool) (x r : float) :
  PyMath.math_1 f b x = ok r -> r = f x.
Proof.
  unfold PyMath.math_1.
  destruct (F64.is_nan (f x) && negb (F64.is_nan x)); [discriminate |].
  destruct (F64.is_inf (f x) && F64.is_finite x); [destruct b; discriminate |].
  intros [= <-]. reflexivity.
Qed.

Lemma haversine_not_negative (P : platform) (lat1 lon1 lat2 lon2 d : float) :
  asin_keeps_sign P ->
  _haversine_m P lat1 lon1 lat2 lon2 = ok d -> not_negative d.
Proof.
  intros Hasin. unfold _haversine_m.
  repeat match goal with
         | |- rbind ?m _ = ok _ -> _ =>
             let H := fresh "H" in
             destruct m eqn:H; cbn [rbind]; [discriminate |]
         end.
  intros [= <-].
  change (F64.mul F64.two (F64.of_Z 6371000))
    with (S754_finite false 6840809160704000 (-29)).
  apply mul_not_negative.
  match goal with
  | Hs : PyMath.sqrt _ = inr ?sq, Ha : PyMath.asin P ?sq = inr ?asn |- _ =>
      apply math_1_value in Hs; apply math_1_value in Ha; subst asn
  end.
  apply Hasin. subst. apply sqrt_not_negative.
Qed.

Lemma rounded_distance_nonneg (P : platform) (a b c d : float) (dist : Z) :
  asin_keeps_sign P ->
  rounded_distance P a b c d = ok dist -> 0 <= dist.
Proof.
  intros Hasin. unfold rounded_distance.
  destruct (_haversine_m P a b c d) as [e | x] eqn:H; cbn [rbind]; [discriminate |].
  apply round_not_negative. exact (haversine_not_negative _ _ _ _ _ _ Hasin H).
Qed.

(** X18: with a C library whose [asin] returns nothing negative for a
    non-negative argument, every returned record has a [distance_m]
    that is an integer greater than or equal to zero. *)
Theorem search_distances_are_nonnegative
    (P : platform) (net : network) (cat : category)
    (latitude longitude : float) (radius_m top_n : Z) (url ua : string)
    (w w1 : world) (out : list record) :
  asin_keeps_sign P ->
  category_search P net cat latitude longitude radius_m top_n url ua w
  = (inr out, w1) ->
  Forall (fun r => exists d, r !! "distance_m" = Some (PyInt d) /\ 0 <= d) out.
Proof.
  intros Hasin Hret.
  destruct (category_search_inv P net cat latitude longitude radius_m top_n
              url ua w w1 out Hret) as (data & cs & Hpost & Hcs & ->).
  apply Forall_take.
  eapply Permutation_Forall; [symmetry; apply sort_by_perm |].
  apply Forall_map, List.Forall_forall. intros c Hc.
  assert (Hc' : In c cs).
  { destruct cat; simpl in Hc; [exact Hc |].
    apply list_elem_of_In, first_occurrences_sub, list_elem_of_In. exact Hc. }
  destruct (candidates_provenance P latitude longitude _ cs c Hcs Hc')
    as (el & plat & plon & _ & _ & Hdist & _).
  exists (cand_dist c). split; [reflexivity |].
  exact (rounded_distance_nonneg _ _ _ _ _ _ Hasin Hdist).
Qed.

Lemma toy_platform_asin_keeps_sign : asin_keeps_sign toy_platform.
Proof. intros x Hx. exact Hx. Defined.

Lemma search_distances_are_nonnegative_witness :
  Forall (fun r => exists d, r !! "distance_m" = Some (PyInt d) /\ 0 <= d)
    [ _to_output_record (Some "Vet B") None 111195;
      _to_output_record (Some "Cafe A") None 222390 ].
Proof.
  exact (search_distances_are_nonnegative toy_platform net_demo
           (PetFriendlyFood true) F64.zero F64.zero 1500 20 DEFAULT_OVERPASS_URL
           DEFAULT_USER_AGENT w0 _ _ toy_platform_asin_keeps_sign
           demo_search_food_returns).
Defined.

(** Every element with coordinates has its candidate in the list. *)
Lemma candidates_complete (P : platform) (latitude longitude : float)
    (els : list element) :
  forall cs el plat plon,
    candidates P latitude longitude els = ok cs ->
    In el els ->
    _extract_center el = Some (plat, plon) ->
    exists dist,
      rounded_distance P latitude longitude plat plon = ok dist
      /\ In (Candidate (PyStr.get_truthy (tags_of el) "name")
               (_build_address (tags_of el)) dist) cs.
Proof.
  induction els as [| el0 els IH]; intros cs el plat plon Hcs Hin Hcenter;
    [contradiction |].
  simpl in Hcs. unfold candidate_of in Hcs.
  destruct Hin as [-> | Hin].
  - rewrite Hcenter in Hcs.
    destruct (rounded_distance P latitude longitude plat plon) as [e | dist];
      simpl in Hcs; [discriminate |].
    destruct (candidates P latitude longitude els) as [e | cs'];
      simpl in Hcs; [discriminate |].
    injection Hcs as <-. exists dist. split; [reflexivity | left; reflexivity].
  - destruct (_extract_center el0) as [[plat0 plon0] |].
    + destruct (rounded_distance P latitude longitude plat0 plon0) as [e | dist0];
        simpl in Hcs; [discriminate |].
      destruct (candidates P latitude longitude els) as [e | cs'] eqn:Hrest;
        simpl in Hcs; [discriminate |].
      injection Hcs as <-.
      destruct (IH cs' el plat plon eq_refl Hin Hcenter) as (dist & Hd & Hc).
      exists dist. split; [exact Hd | right; exact Hc].
    + exact (IH cs el plat plon Hcs Hin Hcenter).
Qed.

(** The head of a sorted list is a least element. *)
Lemma Sorted_head_least {A} (f : A -> Z) (x : A) (l : list A) :
  Sorted (fun a b => f a <= f b) (x :: l) ->
  forall y, In y (x :: l) -> f x <= f y.
Proof.
  intros Hs. apply Sorted_StronglySorted in Hs.
  - inversion Hs as [| ? ? _ Hall]; subst.
    intros y [<- | Hy]; [lia |].
    rewrite List.Forall_forall in Hall. exact (Hall y Hy).
  - intros a b c Hab Hbc. lia.
Qed.

(** X19: in the veterinary search, an element of the response that lies
    exactly at a valid origin is given [distance_m] 0, and nothing comes
    before a record of distance 0. Whenever the search returns: with a
    positive [top_n] the first record of the result has [distance_m]
    equal to 0; and with a [top_n] that does not cut the result short
    the record built from that element, with [distance_m] 0, is in the
    result. (C library following the standard at zero, [cos] within
    [-1, 1], [asin] returning nothing negative for a non-negative
    argument.) *)
Theorem veterinary_search_lists_element_at_origin_first
    (P : platform) (net : network) (latitude longitude : float)
    (radius_m top_n : Z) (url ua : string) (w w1 : world)
    (data : overpass_data) (el : element) (out : list record) :
  libm_conforms P ->
  asin_keeps_sign P ->
  valid_latlon latitude longitude = true ->
  _overpass_post net (veterinary_query P radius_m latitude longitude)
    url ua 45 6 w = (inr data, w1) ->
  In el (elements_of data) ->
  _extract_center el = Some (latitude, longitude) ->
  search_nearby_veterinary P net latitude longitude radius_m top_n url ua w
  = (inr out, w1) ->
  (0 < top_n ->
   exists r rest, out = r :: rest /\ r !! "distance_m" = Some (PyInt 0))
  /\ (Z.of_nat (length (elements_of data)) <= top_n ->
      In (_to_output_record (PyStr.get_truthy (tags_of el) "name")
            (_build_address (tags_of el)) 0) out).
Proof.
  intros Hlibm Hasin Hvalid Hpost Hin Hcenter Hret.
  destruct (category_search_inv P net Veterinary latitude longitude radius_m
              top_n url ua w w1 out Hret) as (data' & cs & Hpost' & Hcs & ->).
  cbn [category_query] in Hpost'. rewrite Hpost in Hpost'.
  injection Hpost' as <-. cbn [category_keeps].
  destruct (candidates_complete P latitude longitude _ cs el latitude longitude
              Hcs Hin Hcenter) as (dist & Hdist & Hc).
  assert (H0 : rounded_distance P latitude longitude latitude longitude = ok 0).
  { unfold rounded_distance.
    rewrite (haversine_self P Hlibm latitude longitude Hvalid). reflexivity. }
  rewrite H0 in Hdist. injection Hdist as <-.
  set (c0 := Candidate (PyStr.get_truthy (tags_of el) "name")
               (_build_address (tags_of el)) 0) in Hc.
  assert (Hsorted : In (record_of c0) (sort_by distance_of (map record_of cs))).
  { eapply Permutation_in; [symmetry; apply sort_by_perm |].
    apply in_map. exact Hc. }
  split.
  - intros Htop.
    pose proof (sort_by_sorted distance_of (map record_of cs)) as Hs.
    pose proof (sort_by_perm distance_of (map record_of cs)) as Hperm.
    destruct (sort_by distance_of (map record_of cs)) as [| r rest] eqn:HL;
      [contradiction |].
    destruct (Z.to_nat (Z.max 0 top_n)) as [| m] eqn:Hm; [lia |].
    exists r, (firstn m rest). split; [reflexivity |].
    assert (Hr : In r (map record_of cs)).
    { eapply Permutation_in; [exact Hperm | left; reflexivity]. }
    apply in_map_iff in Hr. destruct Hr as (c & <- & Hcin).
    destruct (candidates_provenance P latitude longitude _ cs c Hcs Hcin)
      as (el' & plat & plon & _ & _ & Hd & _).
    pose proof (rounded_distance_nonneg _ _ _ _ _ _ Hasin Hd) as Hnonneg.
    pose proof (Sorted_head_least distance_of _ _ Hs (record_of c0) Hsorted)
      as Hle.
    rewrite !record_of_distance in Hle. cbn [cand_dist c0] in Hle.
    assert (Hz : cand_dist c = 0) by lia.
    destruct c as [name address d]. cbn [cand_dist] in Hz. subst d.
    reflexivity.
  - intros Htop. rewrite firstn_all2; [exact Hsorted |].
    rewrite sort_by_length, length_map,
      (candidates_length P latitude longitude _ cs Hcs).
    pose proof (List.filter_length_le has_coordinates (elements_of data)).
    lia.
Qed.

Lemma veterinary_search_lists_element_at_origin_first_witness :
  (0 < 20 ->
   exists r rest,
     [ _to_output_record (Some "Vet B") None 0;
       _to_output_record (Some "Cafe A") None 111195;
       _to_output_record (Some "Cafe A") None 222390 ] = r :: rest
     /\ r !! "distance_m" = Some (PyInt 0))
  /\ (Z.of_nat (length (elements_of demo_data)) <= 20 ->
      In (_to_output_record
            (PyStr.get_truthy (tags_of (el_at 1 0 {[ "name" := "Vet B" ]})) "name")
            (_build_address (tags_of (el_at 1 0 {[ "name" := "Vet B" ]}))) 0)
         [ _to_output_record (Some "Vet B") None 0;
           _to_output_record (Some "Cafe A") None 111195;
           _to_output_record (Some "Cafe A") None 222390 ]).
Proof.
  apply (veterinary_search_lists_element_at_origin_first toy_platform net_demo
           (F64.of_Z 1) (F64.of_Z 0) 1500 20 DEFAULT_OVERPASS_URL
           DEFAULT_USER_AGENT w0
           (World 1 [EvPost (Request DEFAULT_OVERPASS_URL
                               (veterinary_query toy_platform 1500 (F64.of_Z 1)
                                  (F64.of_Z 0))
                               DEFAULT_USER_AGENT "application/json" 45)])
           demo_data (el_at 1 0 {[ "name" := "Vet B" ]})).
  - exact toy_platform_conforms.
  - exact toy_platform_asin_keeps_sign.
  - reflexivity.
  - reflexivity.
  - right. right. left. reflexivity.
  - reflexivity.
  - vm_compute. reflexivity.
Defined.

(** ** Symmetry of the distance *)

Lemma binary_round_aux_opp (s : bool) (m e : Z) (l : location) :
  binary_round_aux F64.prec F64.emax (negb s) m e l
  = SFopp (binary_round_aux F64.prec F64.emax s m e l).
Proof.
  unfold binary_round_aux.
  destruct (shr_fexp F64.prec F64.emax m e l) as [mrs1 e1].
  destruct (shr_fexp F64.prec F64.emax _ e1 loc_Exact) as [mrs2 e2].
  destruct (shr_m mrs2); [reflexivity | | reflexivity].
  destruct (e2 <=? F64.emax - F64.prec); reflexivity.
Qed.

Lemma binary_round_opp (s : bool) (m : positive) (e : Z) :
  binary_round F64.prec F64.emax (negb s) m e
  = SFopp (binary_round F64.prec F64.emax s m e).
Proof.
  unfold binary_round.
  destruct (shl_align m e _) as [mz ez]. apply binary_round_aux_opp.
Qed.

Lemma binary_normalize_mirrored (m e : Z) :
  mirrored (binary_normalize F64.prec F64.emax m e false)
    (binary_normalize F64.prec F64.emax (- m) e false).
Proof.
  destruct m as [| p | p]; simpl.
  - right. split; reflexivity.
  - left. apply (binary_round_opp false).
  - left. rewrite <- (binary_round_opp true). reflexivity.
Qed.

Lemma sub_mirrored (x y : float) : mirrored (F64.sub x y) (F64.sub y x).
Proof.
  unfold F64.sub.
  destruct x as [sx | sx | | sx mx ex], y as [sy | sy | | sy my ey];
    try (destruct sx, sy; simpl; (left; reflexivity) || (right; split; reflexivity));
    try (destruct sx; simpl; left; reflexivity);
    try (destruct sy; simpl; left; reflexivity);
    try (left; reflexivity).
  unfold SFsub. rewrite (Z.min_comm ey ex).
  match goal with
  | |- mirrored (binary_normalize _ _ (?a - ?b) _ _) _ =>
      replace (b - a) with (- (a - b)) by lia
  end.
  apply binary_normalize_mirrored.
Qed.

Lemma mul_opp_l (x y : float) : F64.mul (SFopp x) y = SFopp (F64.mul x y).
Proof.
  unfold F64.mul.
  destruct x as [sx | sx | | sx mx ex], y as [sy | sy | | sy my ey]; simpl;
    try reflexivity; try (destruct sx, sy; reflexivity).
  rewrite <- binary_round_aux_opp. destruct sx, sy; reflexivity.
Qed.

Lemma div_opp_l (x y : float) : F64.div (SFopp x) y = SFopp (F64.div x y).
Proof.
  unfold F64.div.
  destruct x as [sx | sx | | sx mx ex], y as [sy | sy | | sy my ey]; simpl;
    try reflexivity; try (destruct sx, sy; reflexivity).
  destruct (SFdiv_core_binary F64.prec F64.emax (Z.pos mx) ex (Z.pos my) ey)
    as [[mz ez] lz].
  rewrite <- binary_round_aux_opp. destruct sx, sy; reflexivity.
Qed.

Lemma mul_comm (x y : float) : F64.mul x y = F64.mul y x.
Proof.
  unfold F64.mul.
  destruct x as [sx | sx | | sx mx ex], y as [sy | sy | | sy my ey]; simpl;
    try reflexivity; try (destruct sx, sy; reflexivity).
  rewrite (Pos.mul_comm my mx), (Z.add_comm ey ex), (xorb_comm sy sx).
  reflexivity.
Qed.

Lemma radians_mirrored (a b : float) :
  mirrored a b -> mirrored (PyMath.radians a) (PyMath.radians b).
Proof.
  unfold PyMath.radians. intros [-> | [-> ->]].
  - left. apply mul_opp_l.
  - right. split; reflexivity.
Qed.

Lemma half_mirrored (a b : float) :
  mirrored a b -> mirrored (F64.div a F64.two) (F64.div b F64.two).
Proof.
  intros [-> | [-> ->]].
  - left. apply div_opp_l.
  - right. split; reflexivity.
Qed.

Lemma classes_opp (x : float) :
  F64.is_nan (SFopp x) = F64.is_nan x
  /\ F64.is_inf (SFopp x) = F64.is_inf x
  /\ F64.is_finite (SFopp x) = F64.is_finite x.
Proof. destruct x; repeat split. Qed.

Lemma pow2_opp (P : platform) (x : float) :
  PyMath.pow2 P (SFopp x) = PyMath.pow2 P x.
Proof. destruct x; reflexivity. Qed.

Lemma sin_squared_mirrored (P : platform) (a b : float) {A}
    (K : float -> result A) :
  sin_is_odd P -> mirrored a b ->
  rbind (PyMath.sin P a) (fun s => rbind (PyMath.pow2 P s) K)
  = rbind (PyMath.sin P b) (fun s => rbind (PyMath.pow2 P s) K).
Proof.
  intros Hodd [-> | [-> ->]]; [| reflexivity].
  unfold PyMath.sin, PyMath.math_1. rewrite (Hodd a).
  destruct (classes_opp a) as (-> & _ & ->).
  destruct (classes_opp (c_sin P a)) as (-> & -> & _).
  destruct (F64.is_nan (c_sin P a) && negb (F64.is_nan a)); [reflexivity |].
  destruct (F64.is_inf (c_sin P a) && F64.is_finite a); [reflexivity |].
  cbn [rbind ok]. rewrite pow2_opp. reflexivity.
Qed.

(** X20: the distance is symmetric: with a C library whose [sin] is an
    odd function, [_haversine_m] gives the same float, or raises the
    same exception, when the two points are exchanged. *)
Theorem haversine_is_symmetric
    (P : platform) (lat1 lon1 lat2 lon2 : float) :
  sin_is_odd P ->
  _haversine_m P lat1 lon1 lat2 lon2 = _haversine_m P lat2 lon2 lat1 lon1.
Proof.
  intros Hodd. unfold _haversine_m.
  rewrite (sin_squared_mirrored P
             (F64.div (PyMath.radians (F64.sub lat2 lat1)) F64.two)
             (F64.div (PyMath.radians (F64.sub lat1 lat2)) F64.two) _ Hodd)
    by apply half_mirrored, radians_mirrored, sub_mirrored.
  destruct (PyMath.sin P _) as [e | sdp]; [reflexivity |]. cbn [rbind].
  destruct (PyMath.pow2 P sdp) as [e | sdp2]; [reflexivity |]. cbn [rbind].
  destruct (PyMath.cos P (PyMath.radians lat1)) as [e1 | c1] eqn:H1;
    destruct (PyMath.cos P (PyMath.radians lat2)) as [e2 | c2] eqn:H2;
    cbn [rbind];
    try (apply math_1_error in H1); try (apply math_1_error in H2);
    subst; try reflexivity.
  rewrite (mul_comm c2 c1).
  apply (sin_squared_mirrored P
           (F64.div (PyMath.radians (F64.sub lon2 lon1)) F64.two)
           (F64.div (PyMath.radians (F64.sub lon1 lon2)) F64.two) _ Hodd).
  apply half_mirrored, radians_mirrored, sub_mirrored.
Qed.

Lemma toy_platform_sin_is_odd : sin_is_odd toy_platform.
Proof. intros x. reflexivity. Defined.

Lemma haversine_is_symmetric_witness :
  _haversine_m toy_platform (F64.of_Z 25) (F64.of_Z 121) (F64.of_Z 24) (F64.of_Z 120)
  = _haversine_m toy_platform (F64.of_Z 24) (F64.of_Z 120) (F64.of_Z 25) (F64.of_Z 121).
Proof.
  exact (haversine_is_symmetric toy_platform (F64.of_Z 25) (F64.of_Z 121)
           (F64.of_Z 24) (F64.of_Z 120) toy_platform_sin_is_odd).
Defined.

(** ** Integers through binary64 *)

Lemma iter_xO_value (k p : positive) :
  Zpos (Pos.iter xO p k) = Zpos p * 2 ^ Zpos k.
Proof.
  induction k as [| k IH] using Pos.peano_ind.
  - simpl. lia.
  - rewrite Pos.iter_succ, Pos2Z.inj_succ, Z.pow_succ_r by lia.
    rewrite Pos2Z.inj_xO, IH. lia.
Qed.

Lemma iter_xO_digits (k p : positive) :
  Zpos (digits2_pos (Pos.iter xO p k)) = Zpos (digits2_pos p) + Zpos k.
Proof.
  induction k as [| k IH] using Pos.peano_ind.
  - simpl. lia.
  - rewrite Pos.iter_succ. cbn [digits2_pos].
    rewrite Pos2Z.inj_succ, IH. lia.
Qed.

Lemma digits2_pos_le_53 (p : positive) :
  Zpos p < 2 ^ 53 -> Zpos (digits2_pos p) <= 53.
Proof.
  intros H. apply (Zdigits2_bound (Zpos p) 53); lia.
Qed.

(** A mantissa of exactly 53 digits at an exponent between -52 and 0
    is already rounded. *)
Lemma binary_round_aux_exact (s : bool) (m : positive) (e : Z) :
  Zpos (digits2_pos m) = 53 -> -52 <= e <= 0 ->
  binary_round_aux F64.prec F64.emax s (Zpos m) e loc_Exact = S754_finite s m e.
Proof.
  intros Hd He.
  assert (Hshr : shr_fexp F64.prec F64.emax (Zpos m) e loc_Exact
                 = (Build_shr_record (Zpos m) false false, e)).
  { unfold shr_fexp, fexp, emin, F64.prec, F64.emax. cbn [Zdigits2].
    rewrite Hd. replace (Z.max (53 + e - 53) (3 - 1024 - 53) - e) with 0 by lia.
    reflexivity. }
  unfold binary_round_aux. rewrite Hshr. cbn [shr_m loc_of_shr_record round_nearest_even].
  rewrite Hshr. cbn [shr_m].
  replace (e <=? F64.emax - F64.prec) with true; [reflexivity |].
  symmetry. apply Z.leb_le. unfold F64.emax, F64.prec. lia.
Qed.

Lemma of_Z_pos (s : bool) (p : positive) :
  Zpos p < 2 ^ 53 ->
  exists m e,
    binary_round F64.prec F64.emax s p 0 = S754_finite s m e
    /\ -52 <= e <= 0
    /\ Zpos m = Zpos p * 2 ^ (- e).
Proof.
  intros Hp. pose proof (digits2_pos_le_53 p Hp) as Hd.
  assert (Hd1 : 1 <= Zpos (digits2_pos p)) by lia.
  unfold binary_round, shl_align, fexp, emin, F64.prec, F64.emax.
  replace (Z.max (Zpos (digits2_pos p) + 0 - 53) (3 - 1024 - 53) - 0)
    with (Zpos (digits2_pos p) - 53) by lia.
  replace (Z.max (Zpos (digits2_pos p) + 0 - 53) (3 - 1024 - 53))
    with (Zpos (digits2_pos p) - 53) by lia.
  destruct (Zpos (digits2_pos p) - 53) as [| k | k] eqn:Hk; [| lia |].
  - exists p, 0. split; [| split; [lia | simpl; lia]].
    apply (binary_round_aux_exact s p 0); lia.
  - exists (Pos.iter xO p k), (Zneg k). split; [| split].
    + apply binary_round_aux_exact; [rewrite iter_xO_digits |]; lia.
    + lia.
    + rewrite iter_xO_value. reflexivity.
Qed.

(** Converting a Python int of magnitude below [2^53] to float and back
    gives the int again. *)
Lemma int_of_float_of_Z (z : Z) :
  - 2 ^ 53 < z < 2 ^ 53 -> PyMath.int_of_float (F64.of_Z z) = ok z.
Proof.
  intros Hz. unfold F64.of_Z, binary_normalize.
  destruct z as [| p | p]; [reflexivity | |].
  - destruct (of_Z_pos false p) as (m & e & -> & He & Hm); [lia |].
    unfold PyMath.int_of_float, ok. f_equal. cbn [cond_Zopp].
    rewrite Hm. destruct (0 <=? e) eqn:H0.
    + apply Z.leb_le in H0. replace e with 0 by lia. simpl. lia.
    + apply Z.div_mul. apply Z.pow_nonzero; lia.
  - destruct (of_Z_pos true p) as (m & e & -> & He & Hm); [lia |].
    unfold PyMath.int_of_float, ok. f_equal. cbn [cond_Zopp].
    rewrite Hm. destruct (0 <=? e) eqn:H0.
    + apply Z.leb_le in H0. replace e with 0 by lia. simpl. lia.
    + rewrite Z.div_mul by (apply Z.pow_nonzero; lia). reflexivity.
Qed.

(** ** The adapters and keyword arguments *)

(** X21: the v1 adapter called with a radius that is an integer-valued
    float of magnitude below [2^53] (such as its default 1500.0) is the
    legacy adapter, and so the veterinary search, called with that
    integer as [radius_m]; [api_key] and [field_mask] play no part. *)
Theorem v1_adapter_with_integral_radius
    (P : platform) (net : network) (api_key api_key' : string)
    (latitude longitude : float) (radius : Z) (max_results : Z)
    (field_mask language : option string) (kw : kwargs) :
  - 2 ^ 53 < radius < 2 ^ 53 ->
  search_nearby_veterinary_v1 P net api_key latitude longitude
    (F64.of_Z radius) max_results field_mask kw
  = search_nearby_veterinary_legacy P net api_key' latitude longitude
      radius language max_results kw.
Proof.
  intros Hr. unfold search_nearby_veterinary_v1, search_nearby_veterinary_legacy.
  rewrite (int_of_float_of_Z radius Hr). reflexivity.
Qed.

Lemma v1_adapter_with_integral_radius_witness :
  search_nearby_veterinary_v1 toy_platform net_demo "key" F64.zero F64.zero
    (F64.of_Z 1500) 20 None no_kwargs
  = search_nearby_veterinary_legacy toy_platform net_demo "other" F64.zero
      F64.zero 1500 (Some "zh-TW") 20 no_kwargs.
Proof.
  apply (v1_adapter_with_integral_radius toy_platform net_demo "key" "other"
           F64.zero F64.zero 1500 20 None (Some "zh-TW") no_kwargs).
  lia.
Defined.

(** X22: the v1 adapter called with a radius that is NaN or infinite
    raises [ValueError] or [OverflowError] from [int(radius)] before any
    request is sent. *)
Theorem v1_adapter_rejects_non_finite_radius
    (P : platform) (net : network) (api_key : string)
    (latitude longitude radius : float) (max_results : Z)
    (field_mask : option string) (kw : kwargs) (w : world) :
  F64.is_finite radius = false ->
  exists e,
    search_nearby_veterinary_v1 P net api_key latitude longitude radius
      max_results field_mask kw w
    = (inl e, w)
    /\ (exn_cls e = ValueError \/ exn_cls e = OverflowError).
Proof.
  unfold search_nearby_veterinary_v1, bind, lift.
  destruct radius as [s | s | | s m e]; simpl; try discriminate; intros _;
    eexists; (split; [reflexivity |]); auto.
Qed.

Lemma v1_adapter_rejects_non_finite_radius_witness :
  exists e,
    search_nearby_veterinary_v1 toy_platform net_demo "key" F64.zero F64.zero
      S754_nan 20 None no_kwargs w0
    = (inl e, w0)
    /\ (exn_cls e = ValueError \/ exn_cls e = OverflowError).
Proof.
  apply (v1_adapter_rejects_non_finite_radius toy_platform net_demo "key"
           F64.zero F64.zero S754_nan 20 None no_kwargs w0).
  reflexivity.
Defined.

(** X23: [strict] is a keyword of the food search only. Passed to
    [search_nearby] in veterinary mode, or to the legacy adapter, it is
    forwarded to a function that has no such parameter: the call raises
    [TypeError] before any request is sent. *)
Theorem veterinary_entry_points_reject_strict
    (P : platform) (net : network) (api_key : string)
    (latitude longitude : float) (radius_m top_n : Z)
    (mode language : option string) (kw : kwargs) (b : bool) (w : world) :
  kw_strict kw = Some b ->
  normalize_mode mode = "veterinary" ->
  (exists e,
      search_nearby P net latitude longitude radius_m top_n mode kw w = (inl e, w)
      /\ exn_cls e = TypeError)
  /\ (exists e,
        search_nearby_veterinary_legacy P net api_key latitude longitude radius_m
          language top_n kw w = (inl e, w)
        /\ exn_cls e = TypeError).
Proof.
  intros Hstrict Hmode.
  unfold search_nearby, search_nearby_veterinary_legacy, call_veterinary.
  rewrite Hmode, Hstrict. cbn [String.eqb Ascii.eqb Bool.eqb andb].
  split; eexists; split; reflexivity.
Qed.

Lemma veterinary_entry_points_reject_strict_witness :
  (exists e,
      search_nearby toy_platform net_demo F64.zero F64.zero 1500 20
        (Some " Veterinary ") (Kwargs (Some true) None None) w0 = (inl e, w0)
      /\ exn_cls e = TypeError)
  /\ (exists e,
        search_nearby_veterinary_legacy toy_platform net_demo "key" F64.zero
          F64.zero 1500 None 20 (Kwargs (Some true) None None) w0 = (inl e, w0)
        /\ exn_cls e = TypeError).
Proof.
  apply (veterinary_entry_points_reject_strict toy_platform net_demo "key"
           F64.zero F64.zero 1500 20 (Some " Veterinary ") None
           (Kwargs (Some true) None None) true w0).
  - reflexivity.
  - reflexivity.
Defined.

(** ** Names and addresses of the results *)

(** X24: in every returned record the name is [None] or a non-empty
    string, and the address is [None] or a non-empty string with no
    whitespace at either end: an empty string is never returned. *)
Theorem search_results_have_clean_names_and_addresses
    (P : platform) (net : network) (cat : category)
    (latitude longitude : float) (radius_m top_n : Z) (url ua : string)
    (w w1 : world) (out : list record) :
  category_search P net cat latitude longitude radius_m top_n url ua w
  = (inr out, w1) ->
  Forall (fun r => exists name address,
              r !! "name" = Some name /\ r !! "address" = Some address
              /\ clean_field false name /\ clean_field true address) out.
Proof.
  intros Hret.
  destruct (category_search_inv P net cat latitude longitude radius_m top_n
              url ua w w1 out Hret) as (data & cs & Hpost & Hcs & ->).
  apply Forall_take.
  eapply Permutation_Forall; [symmetry; apply sort_by_perm |].
  apply Forall_map, List.Forall_forall. intros c Hc.
  assert (Hc' : In c cs).
  { destruct cat; simpl in Hc; [exact Hc |].
    apply list_elem_of_In, first_occurrences_sub, list_elem_of_In. exact Hc. }
  destruct (candidates_provenance P latitude longitude _ cs c Hcs Hc')
    as (el & plat & plon & _ & _ & _ & Hrec).
  rewrite Hrec. unfold element_record.
  exists (of_opt_str (PyStr.get_truthy (tags_of el) "name")),
    (of_opt_str (_build_address (tags_of el))).
  split; [reflexivity |]. split; [reflexivity |]. split.
  - pose proof (get_truthy_nonempty (tags_of el) "name") as Hn.
    destruct (PyStr.get_truthy (tags_of el) "name") as [s |]; simpl; [| exact I].
    split; [congruence | discriminate].
  - destruct (_build_address (tags_of el)) as [a |] eqn:Ha; simpl; [| exact I].
    destruct (build_address_shape _ _ Ha) as (H1 & H2 & H3).
    split; [exact H1 | intros _; split; assumption].
Qed.

Lemma search_results_have_clean_names_and_addresses_witness :
  Forall (fun r => exists name address,
              r !! "name" = Some name /\ r !! "address" = Some address
              /\ clean_field false name /\ clean_field true address)
    [ _to_output_record (Some "Vet B") None 111195;
      _to_output_record (Some "Cafe A") None 222390 ].
Proof.
  exact (search_results_have_clean_names_and_addresses toy_platform net_demo
           (PetFriendlyFood true) F64.zero F64.zero 1500 20 DEFAULT_OVERPASS_URL
           DEFAULT_USER_AGENT w0 _ _ demo_search_food_returns).
Defined.

(** ** Requests and sleeps of a whole search *)

Lemma category_search_world
    (P : platform) (net : network) (cat : category)
    (latitude longitude : float) (radius_m top_n : Z) (url ua : string)
    (w : world) :
  snd (category_search P net cat latitude longitude radius_m top_n url ua w)
  = snd (_overpass_post net (category_query P cat radius_m latitude longitude)
           url ua 45 6 w).
Proof.
  destruct cat; simpl;
    unfold search_nearby_veterinary, search_nearby_pet_friendly_food, bind, lift;
    destruct (_overpass_post net _ url ua 45 6 w) as [[e | data] w1];
    try reflexivity; cbn [snd].
  - destruct (veterinary_loop P latitude longitude (elements_of data) []);
      [reflexivity |].
    destruct (sort_and_truncate _ top_n); reflexivity.
  - destruct (food_loop P latitude longitude (elements_of data) ∅ []);
      [reflexivity |].
    destruct (sort_and_truncate _ top_n); reflexivity.
Qed.

(** X25: whatever the endpoint answers, a category search sends at most
    six POSTs, each with the query of its category, the given URL and
    User-Agent, [Accept: application/json] and a timeout of 45 seconds,
    does nothing else to the world, and sleeps at most 78.75 seconds in
    all. *)
Theorem search_sends_at_most_six_requests
    (P : platform) (net : network) (cat : category)
    (latitude longitude : float) (radius_m top_n : Z) (url ua : string)
    (w : world) :
  exists m tl,
    w_log (snd (category_search P net cat latitude longitude radius_m top_n
                  url ua w))
    = w_log w ++ tl
    /\ posted tl
       = repeat (Request url (category_query P cat radius_m latitude longitude)
                   ua "application/json" 45) m
    /\ (m <= 6)%nat
    /\ (total_sleep tl <= 315 # 4)%Q.
Proof.
  rewrite category_search_world.
  destruct (overpass_post_outcome net
              (category_query P cat radius_m latitude longitude) url ua 45 6 w)
    as [(k & d & Hk & _ & _ & _ & ->) | [(_ & _ & ->) | (Hn & _)]];
    [| | change (Z.to_nat 6) with 6%nat in Hn; lia]; cbn [snd w_log].
  - exists (S k). eexists. split; [reflexivity |].
    rewrite posted_app, posted_failed_trace. cbn [posted].
    split; [unfold request_of; rewrite <- repeat_cons; reflexivity |].
    split; [change (Z.to_nat 6) with 6%nat in Hk; lia |].
    rewrite total_sleep_app, total_sleep_failed_trace. cbn [total_sleep].
    rewrite Qplus_0_r.
    apply (Qle_trans _ (sleep_sum 6)); [| discriminate].
    apply sleep_sum_mono. change (Z.to_nat 6) with 6%nat in Hk. lia.
  - exists 6%nat. eexists. split; [reflexivity |].
    rewrite posted_failed_trace. split; [reflexivity |]. split; [lia |].
    rewrite total_sleep_failed_trace. discriminate.
Qed.
